(** * IPES data pipeline: the structuring pass of [code/structure_data.py]

    A shallow embedding of [structure_data] and of the functions it calls
    ([normalize_company_name], [should_exclude], [is_application_type],
    [is_likely_individual], [generate_company_id]), together with the parts
    of the Python library they rely on ([str] methods, the regular
    expressions of the program, [difflib.SequenceMatcher.ratio],
    [uuid.uuid5], [list.sort]).

    Conventions of the model.
    - A Python [str] is a [string]; a character is its code point.  The
      model is that of ASCII text ([Text.isascii]): there the classes of
      characters and the case mappings are those of Python.  For a code
      point above 127 Python follows the Unicode tables, which the model
      does not have: it takes such a character for a caseless symbol that is
      neither a word character nor white space, where Python may take it
      for a letter or for white space.  A property that depends on the class
      of a character is stated for ASCII text.
    - A field of a raw filing is a JSON value restricted to [null], strings
      and integers ([pyval]); a raw filing is a finite map from field names
      to such values.
    - A Python exception is a value of [exn]; code that may raise returns a
      [result].
    - The clock and the persisted history file are the [World] that
      [structure_data] reads and writes; console output is left out. *)

From Stdlib Require Import ZArith NArith Lia Bool Ascii String
  Floats.PrimFloat Numbers.Cyclic.Int63.Uint63.
From stdpp Require Import gmap strings list fin_maps sorting.

Set Warnings "-inexact-float,-register-all".
Local Open Scope string_scope.
Local Open Scope list_scope.

(** ** Exceptions *)

Inductive exn := AttributeError | TypeError.

Inductive result (A : Type) :=
  | Ok (a : A)
  | Raise (e : exn).
Arguments Ok {A} a.
Arguments Raise {A} e.

Definition rbind {A B} (m : result A) (k : A -> result B) : result B :=
  match m with
  | Ok a => k a
  | Raise e => Raise e
  end.

Notation "'let*' x ':=' m 'in' k" := (rbind m (fun x => k))
  (at level 10, x name, m at level 100, k at level 200).

(** ** Python strings *)

Module Text.

Definition code (c : ascii) : N := N_of_ascii c.

(** [str.isspace] on one ASCII character, the class [\s] of [re]. *)
Definition is_space (c : ascii) : bool :=
  let n := code c in
  ((9 <=? n) && (n <=? 13) || (28 <=? n) && (n <=? 32))%N.

(** The class [\w] of [re] on ASCII: letters, digits and the underscore. *)
Definition is_word (c : ascii) : bool :=
  let n := code c in
  ((48 <=? n) && (n <=? 57) || (65 <=? n) && (n <=? 90)
   || (n =? 95) || (97 <=? n) && (n <=? 122))%N.

(** [c.lower()] and [c.upper()] on one ASCII character. *)
Definition lower_char (c : ascii) : ascii :=
  let n := code c in
  if ((65 <=? n) && (n <=? 90))%N then ascii_of_N (n + 32) else c.

Definition upper_char (c : ascii) : ascii :=
  let n := code c in
  if ((97 <=? n) && (n <=? 122))%N then ascii_of_N (n - 32) else c.

Fixpoint map_str (f : ascii -> ascii) (s : string) : string :=
  match s with
  | EmptyString => EmptyString
  | String c s' => String (f c) (map_str f s')
  end.

(** [s.lower()] and [s.upper()] *)
Definition lower (s : string) : string := map_str lower_char s.
Definition upper (s : string) : string := map_str upper_char s.

(** [s.isascii()]: every code point of [s] is below 128. *)
Fixpoint isascii (s : string) : bool :=
  match s with
  | EmptyString => true
  | String c s' => (code c <? 128)%N && isascii s'
  end.

Fixpoint lstrip (s : string) : string :=
  match s with
  | String c s' => if is_space c then lstrip s' else s
  | EmptyString => EmptyString
  end.

Fixpoint rstrip (s : string) : string :=
  match s with
  | EmptyString => EmptyString
  | String c s' =>
      match rstrip s' with
      | EmptyString => if is_space c then EmptyString else String c EmptyString
      | r => String c r
      end
  end.

(** [s.strip()] *)
Definition strip (s : string) : string := rstrip (lstrip s).

Definition is_empty (s : string) : bool :=
  match s with EmptyString => true | _ => false end.

Fixpoint starts_with (p s : string) : bool :=
  match p, s with
  | EmptyString, _ => true
  | String a p', String b s' => if Ascii.eqb a b then starts_with p' s' else false
  | _, EmptyString => false
  end.

(** [needle in hay] *)
Fixpoint contains (needle hay : string) : bool :=
  starts_with needle hay ||
  match hay with
  | EmptyString => false
  | String _ hay' => contains needle hay'
  end.

(** [s.split()]: the maximal runs of characters that are not white space.
    [cur] is the run being read, in reverse. *)
Fixpoint split_ws_aux (cur : list ascii) (s : string) : list string :=
  let flush rest :=
    match cur with
    | [] => rest
    | _ => string_of_list_ascii (rev cur) :: rest
    end in
  match s with
  | EmptyString => flush []
  | String c s' =>
      if is_space c then flush (split_ws_aux [] s')
      else split_ws_aux (c :: cur) s'
  end.

Definition split_ws (s : string) : list string := split_ws_aux [] s.

Fixpoint drop (n : nat) (s : string) : string :=
  match n, s with
  | O, _ => s
  | S n', String _ s' => drop n' s'
  | S _, EmptyString => EmptyString
  end.

(** [s.split(sep)] for a separator that is not empty: [skip] counts the
    characters of a separator found earlier that are still to be passed
    over, [cur] is the piece being read, in reverse. *)
Fixpoint split_on_aux (sep : string) (skip : nat) (cur : list ascii)
    (s : string) : list string :=
  match s with
  | EmptyString => [string_of_list_ascii (rev cur)]
  | String c s' =>
      match skip with
      | S k => split_on_aux sep k cur s'
      | O =>
          if starts_with sep s
          then string_of_list_ascii (rev cur)
               :: split_on_aux sep (String.length sep - 1) [] s'
          else split_on_aux sep O (c :: cur) s'
      end
  end.

Definition split_on (sep s : string) : list string := split_on_aux sep O [] s.

(** Comparison of strings by code points, as [<] on [str]. *)
Fixpoint str_lt (a b : string) : bool :=
  match a, b with
  | _, EmptyString => false
  | EmptyString, String _ _ => true
  | String x a', String y b' =>
      if (code x <? code y)%N then true
      else if (code y <? code x)%N then false
      else str_lt a' b'
  end.

End Text.

(** ** Regular expressions

    The fragment of [re] that the patterns of the program use, with the
    backtracking semantics of the library: alternatives are tried from left
    to right, [?], [*] and [+] are greedy, and the first way to match that
    the search finds is the one taken. *)

Module Regex.

Inductive regex :=
  | Eps                          (* the empty pattern *)
  | Lit (s : string)             (* literal text *)
  | Cls (p : ascii -> bool)      (* one character of a class *)
  | Seq (r1 r2 : regex)
  | Alt (r1 r2 : regex)
  | Opt (r : regex)              (* r? *)
  | Star (p : ascii -> bool)     (* c* for a class c *)
  | WordB                        (* \b *)
  | Bol                          (* ^ *)
  | Eol.                         (* $ *)

Definition Plus (p : ascii -> bool) : regex := Seq (Cls p) (Star p).

Fixpoint seqs (rs : list regex) : regex :=
  match rs with
  | [] => Eps
  | [r] => r
  | r :: rs' => Seq r (seqs rs')
  end.

Fixpoint alts (rs : list regex) : regex :=
  match rs with
  | [] => Cls (fun _ => false)
  | [r] => r
  | r :: rs' => Alt r (alts rs')
  end.

(** Equality of a pattern character and a text character, under the flag
    [re.IGNORECASE] when [icase] is set. *)
Definition chr_eq (icase : bool) (a b : ascii) : bool :=
  if icase then Ascii.eqb (Text.lower_char a) (Text.lower_char b)
  else Ascii.eqb a b.

(** The state of a match: the character before the position ([None] at the
    start of the text), the text from the position on, and the number of
    characters matched so far. *)
Definition cont := option ascii -> string -> nat -> option nat.

Fixpoint lit_match (icase : bool) (lit : string) (prev : option ascii)
    (s : string) (n : nat) (k : cont) : option nat :=
  match lit with
  | EmptyString => k prev s n
  | String a lit' =>
      match s with
      | String b s' =>
          if chr_eq icase a b then lit_match icase lit' (Some b) s' (S n) k
          else None
      | EmptyString => None
      end
  end.

Fixpoint star_match (p : ascii -> bool) (prev : option ascii) (s : string)
    (n : nat) (k : cont) : option nat :=
  match s with
  | String c s' =>
      if p c then
        match star_match p (Some c) s' (S n) k with
        | Some m => Some m
        | None => k prev s n
        end
      else k prev s n
  | EmptyString => k prev s n
  end.

Definition word_before (prev : option ascii) : bool :=
  match prev with Some c => Text.is_word c | None => false end.

Definition word_after (s : string) : bool :=
  match s with String c _ => Text.is_word c | EmptyString => false end.

Definition newline : ascii := ascii_of_N 10.

(** [$] without [re.MULTILINE]: the end of the text, or just before a
    newline that ends the text. *)
Definition at_eol (s : string) : bool :=
  match s with
  | EmptyString => true
  | String c EmptyString => Ascii.eqb c newline
  | _ => false
  end.

Fixpoint rmatch (icase : bool) (r : regex) (prev : option ascii) (s : string)
    (n : nat) (k : cont) : option nat :=
  match r with
  | Eps => k prev s n
  | Lit l => lit_match icase l prev s n k
  | Cls p =>
      match s with
      | String c s' => if p c then k (Some c) s' (S n) else None
      | EmptyString => None
      end
  | Seq r1 r2 =>
      rmatch icase r1 prev s n (fun prev' s' n' => rmatch icase r2 prev' s' n' k)
  | Alt r1 r2 =>
      match rmatch icase r1 prev s n k with
      | Some m => Some m
      | None => rmatch icase r2 prev s n k
      end
  | Opt r1 =>
      match rmatch icase r1 prev s n k with
      | Some m => Some m
      | None => k prev s n
      end
  | Star p => star_match p prev s n k
  | WordB => if xorb (word_before prev) (word_after s) then k prev s n else None
  | Bol => match prev with None => k prev s n | Some _ => None end
  | Eol => if at_eol s then k prev s n else None
  end.

(** The length of the match of [r] that starts at the position, if any. *)
Definition match_here (icase : bool) (r : regex) (prev : option ascii)
    (s : string) : option nat :=
  rmatch icase r prev s 0 (fun _ _ n => Some n).

Fixpoint search_from (icase : bool) (r : regex) (prev : option ascii)
    (s : string) : bool :=
  match match_here icase r prev s with
  | Some _ => true
  | None =>
      match s with
      | String c s' => search_from icase r (Some c) s'
      | EmptyString => false
      end
  end.

(** [re.search(r, s)] as a truth value. *)
Definition search (icase : bool) (r : regex) (s : string) : bool :=
  search_from icase r None s.

(** [re.sub(r, repl, s)]: the matches are found from left to right and do
    not overlap; [skip] counts the characters of the current match that are
    still to be dropped.  No pattern of the program matches the empty
    string, and a match of length 0 is not replaced here. *)
Fixpoint sub_from (icase : bool) (r : regex) (repl : string) (skip : nat)
    (prev : option ascii) (s : string) : string :=
  match s with
  | EmptyString => EmptyString
  | String c s' =>
      match skip with
      | S k => sub_from icase r repl k (Some c) s'
      | O =>
          match match_here icase r prev s with
          | Some (S k) => repl +:+ sub_from icase r repl k (Some c) s'
          | _ => String c (sub_from icase r repl O (Some c) s')
          end
      end
  end.

Definition sub (icase : bool) (r : regex) (repl s : string) : string :=
  sub_from icase r repl O None s.

End Regex.

(** ** The name normalizer and the predicates on names and filings *)

Import Regex.

Definition lit_dot : regex := Opt (Lit ".").

(** The four patterns of [suffixes] in [normalize_company_name]. *)
Definition suffixes : list regex :=
  [ seqs [WordB;
          alts [Lit "llc"; Seq (Lit "l.l.c") lit_dot; Seq (Lit "inc") lit_dot;
                Lit "incorporated"; Seq (Lit "corp") lit_dot;
                Lit "corporation"; Seq (Lit "co") lit_dot; Lit "company"];
          WordB];
    seqs [WordB;
          alts [Seq (Lit "ltd") lit_dot; Lit "limited"; Lit "lp";
                Seq (Lit "l.p") lit_dot; Lit "llp"; Seq (Lit "l.l.p") lit_dot];
          WordB];
    seqs [WordB;
          alts [Lit "pllc"; Seq (Lit "p.l.l.c") lit_dot; Lit "pc";
                Seq (Lit "p.c") lit_dot];
          WordB];
    seqs [Opt (Lit ","); Star Text.is_space;
          Alt (seqs [Lit "d"; Opt (Lit "/"); Lit "b"; Opt (Lit "/"); Lit "a"])
              (Lit "doing business as");
          Plus Text.is_space;
          Star (fun c => negb (Ascii.eqb c newline)); Eol] ].

(** [[^\w\s]] and [\s+] *)
Definition re_punct : regex :=
  Cls (fun c => negb (Text.is_word c || Text.is_space c)).
Definition re_spaces : regex := Plus Text.is_space.

Definition normalize_company_name (name : string) : string :=
  if Text.is_empty name then ""
  else
    let name := Text.strip (Text.lower name) in
    let name := fold_left (fun nm suffix => sub true suffix "" nm) suffixes name in
    let name := sub false re_punct " " name in
    Text.strip (sub false re_spaces " " name).

Definition EXCLUDE_PATTERNS : list regex :=
  [ Lit "wireline competition bureau";
    seqs [Bol; Lit "fcc"; WordB];
    Lit "federal communications commission";
    Lit "national telecommunications and information";
    Lit "department of justice";
    Lit "national association of regulatory" ].

Definition should_exclude (name : string) : bool :=
  let name_lower := Text.lower name in
  existsb (fun pattern => search false pattern name_lower) EXCLUDE_PATTERNS.

Definition is_likely_individual (name : string) : bool :=
  let name_lower := Text.lower name in
  let business_indicators :=
    ["llc"; "inc"; "corp"; "company"; "co."; "communications";
     "telecom"; "voip"; "network"; "services"; "solutions"] in
  let has_business_word :=
    existsb (fun ind => Text.contains ind name_lower) business_indicators in
  let parts := Text.split_ws name in
  (length parts <=? 3)%nat && negb has_business_word.

(** ** [difflib.SequenceMatcher(None, a, b).ratio()]

    The matcher is created without a junk predicate and with the default
    [autojunk]: when [b] has 200 elements or more, the elements that occur
    more than [len(b) // 100 + 1] times are left out of the index [b2j]. *)

Module Difflib.

Section Matcher.
Variables a b : list ascii.

Definition count_in (c : ascii) : nat :=
  length (filter (fun x => Ascii.eqb x c = true) b).

Definition popular (c : ascii) : bool :=
  (200 <=? length b)%nat && (length b / 100 + 1 <? count_in c)%nat.

Fixpoint indices_from (j : nat) (c : ascii) (l : list ascii) : list nat :=
  match l with
  | [] => []
  | x :: l' =>
      if Ascii.eqb x c then j :: indices_from (S j) c l'
      else indices_from (S j) c l'
  end.

(** [b2j.get(c, [])]: the positions of [c] in [b], in increasing order. *)
Definition b2j (c : ascii) : list nat :=
  if popular c then [] else indices_from 0 c b.

(** A candidate block: [(besti, bestj, bestsize)]. *)
Definition block : Type := nat * nat * nat.

(** The inner loop of [find_longest_match] over the positions [j] of
    [a[i]] in [b]; [continue] below [blo], [break] from [bhi] on. *)
Fixpoint row (i blo bhi : nat) (j2len : gmap nat nat) (js : list nat)
    (newj2len : gmap nat nat) (best : block) : gmap nat nat * block :=
  match js with
  | [] => (newj2len, best)
  | j :: js' =>
      if (j <? blo)%nat then row i blo bhi j2len js' newj2len best
      else if (bhi <=? j)%nat then (newj2len, best)
      else
        let k := S (match j with
                    | O => 0
                    | S j' => default 0 (j2len !! j')
                    end) in
        let best' :=
          if (best.2 <? k)%nat then (i + 1 - k, j + 1 - k, k) else best in
        row i blo bhi j2len js' (<[j := k]> newj2len) best'
  end.

Fixpoint rows (ilist : list nat) (blo bhi : nat) (j2len : gmap nat nat)
    (best : block) : block :=
  match ilist with
  | [] => best
  | i :: is' =>
      match a !! i with
      | Some c =>
          let '(newj2len, best') := row i blo bhi j2len (b2j c) ∅ best in
          rows is' blo bhi newj2len best'
      | None => best
      end
  end.

Definition same_at (i j : nat) : bool :=
  match a !! i, b !! j with
  | Some x, Some y => Ascii.eqb x y
  | _, _ => false
  end.

(** The first extension loop: grow the block to the left while the
    elements agree; [fuel] bounds the number of steps by [besti - alo]. *)
Fixpoint extend_left (fuel alo blo : nat) (best : block) : block :=
  match fuel with
  | O => best
  | S fuel' =>
      let '(besti, bestj, bestsize) := best in
      if (alo <? besti)%nat && (blo <? bestj)%nat
         && same_at (besti - 1) (bestj - 1)
      then extend_left fuel' alo blo (besti - 1, bestj - 1, S bestsize)
      else best
  end.

(** The second extension loop: grow the block to the right. *)
Fixpoint extend_right (fuel ahi bhi : nat) (best : block) : block :=
  match fuel with
  | O => best
  | S fuel' =>
      let '(besti, bestj, bestsize) := best in
      if (besti + bestsize <? ahi)%nat && (bestj + bestsize <? bhi)%nat
         && same_at (besti + bestsize) (bestj + bestsize)
      then extend_right fuel' ahi bhi (besti, bestj, S bestsize)
      else best
  end.

(** [find_longest_match(alo, ahi, blo, bhi)].  The two further loops of
    the library extend the block by junk elements, and there are none. *)
Definition find_longest_match (alo ahi blo bhi : nat) : block :=
  let best := rows (seq alo (ahi - alo)) blo bhi ∅ (alo, blo, 0) in
  let best := extend_left (best.1.1 - alo) alo blo best in
  extend_right (ahi - (best.1.1 + best.2)) ahi bhi best.

(** The loop of [get_matching_blocks]: [queue] is the stack of ranges that
    are still to be searched, its top first. *)
Fixpoint blocks_loop (fuel : nat) (queue : list (nat * nat * nat * nat))
    (matching_blocks : list block) : option (list block) :=
  match queue with
  | [] => Some matching_blocks
  | (alo, ahi, blo, bhi) :: queue' =>
      match fuel with
      | O => None
      | S fuel' =>
          let '(i, j, k) := find_longest_match alo ahi blo bhi in
          if (0 <? k)%nat then
            let q1 :=
              if (alo <? i)%nat && (blo <? j)%nat
              then [(alo, i, blo, j)] else [] in
            let q2 :=
              if (i + k <? ahi)%nat && (j + k <? bhi)%nat
              then [(i + k, ahi, j + k, bhi)] else [] in
            blocks_loop fuel' (q2 ++ q1 ++ queue') (matching_blocks ++ [(i, j, k)])
          else blocks_loop fuel' queue' matching_blocks
      end
  end.

(** Every step either finds no block in a range or splits it into two
    ranges that are shorter by the size of the block found, so
    [2 * len(a) + 1] steps are enough. *)
Definition get_matching_blocks : option (list block) :=
  blocks_loop (2 * length a + 1) [(0, length a, 0, length b)] [].

Definition matches : nat :=
  match get_matching_blocks with
  | Some blocks => fold_right (fun t acc => t.2 + acc) 0 blocks
  | None => 0
  end.

End Matcher.

Definition float_of_nat (n : nat) : float :=
  PrimFloat.of_uint63 (Uint63.of_Z (Z.of_nat n)).

(** [_calculate_ratio(matches, length)] *)
Definition calculate_ratio (matches length : nat) : float :=
  match length with
  | O => 1.0%float
  | _ => (2.0 * float_of_nat matches / float_of_nat length)%float
  end.

Definition ratio (s1 s2 : string) : float :=
  let a := list_ascii_of_string s1 in
  let b := list_ascii_of_string s2 in
  calculate_ratio (matches a b) (length a + length b).

End Difflib.

(** ** [uuid.uuid5]: the SHA-1 digest of the namespace and the name, with
    the version and variant bits set, printed as 8-4-4-4-12 hexadecimal
    digits. *)

Module Uuid.

Local Open Scope N_scope.

Definition mask32 : N := 0xFFFFFFFF.
Definition add32 (x y : N) : N := N.land (x + y) mask32.
Definition rotl32 (n x : N) : N :=
  N.land (N.lor (N.shiftl x n) (N.shiftr x (32 - n))) mask32.
Definition not32 (x : N) : N := N.lxor x mask32.

(** Big-endian bytes of [x], [n] of them. *)
Fixpoint be_bytes (n : nat) (x : N) : list N :=
  match n with
  | O => []
  | S n' => N.land (N.shiftr x (8 * N.of_nat n')) 0xFF :: be_bytes n' x
  end.

Definition be_word (bs : list N) : N :=
  fold_left (fun acc x => N.lor (N.shiftl acc 8) x) bs 0.

(** The message followed by the bit 1, zeros up to 56 modulo 64 bytes, and
    the length in bits on 8 bytes. *)
Definition pad (msg : list N) : list N :=
  let len := N.of_nat (length msg) in
  let zeros := N.to_nat ((119 - len mod 64) mod 64) in
  msg ++ [0x80] ++ repeat 0 zeros ++ be_bytes 8 (8 * len).

Fixpoint chunks (fuel n : nat) (l : list N) : list (list N) :=
  match fuel, l with
  | O, _ | _, [] => []
  | S fuel', _ => firstn n l :: chunks fuel' n (skipn n l)
  end.

(** The message schedule, most recent word first. *)
Fixpoint schedule (n : nat) (w : list N) : list N :=
  match n with
  | O => w
  | S n' =>
      let x i := nth i w 0 in
      schedule n' (rotl32 1 (N.lxor (N.lxor (x 2%nat) (x 7%nat))
                                    (N.lxor (x 13%nat) (x 15%nat))) :: w)
  end.

Definition state : Type := N * N * N * N * N.

Definition round (st : state) (t : N) (wt : N) : state :=
  let '(a, b, c, d, e) := st in
  let '(f, k) :=
    if t <? 20 then (N.lor (N.land b c) (N.land (not32 b) d), 0x5A827999)
    else if t <? 40 then (N.lxor (N.lxor b c) d, 0x6ED9EBA1)
    else if t <? 60 then
      (N.lor (N.lor (N.land b c) (N.land b d)) (N.land c d), 0x8F1BBCDC)
    else (N.lxor (N.lxor b c) d, 0xCA62C1D6) in
  let temp := add32 (add32 (add32 (add32 (rotl32 5 a) f) e) k) wt in
  (temp, a, rotl32 30 b, c, d).

Fixpoint rounds (st : state) (t : N) (ws : list N) : state :=
  match ws with
  | [] => st
  | wt :: ws' => rounds (round st t wt) (t + 1) ws'
  end.

Definition compress (h : state) (chunk : list N) : state :=
  let w0 := map be_word (chunks 16 4 chunk) in
  let w := rev (schedule 64 (rev w0)) in
  let '(a, b, c, d, e) := rounds h 0 w in
  let '(h0, h1, h2, h3, h4) := h in
  (add32 h0 a, add32 h1 b, add32 h2 c, add32 h3 d, add32 h4 e).

Definition sha1 (msg : list N) : list N :=
  let padded := pad msg in
  let '(h0, h1, h2, h3, h4) :=
    fold_left compress (chunks (length padded) 64 padded)
      (0x67452301, 0xEFCDAB89, 0x98BADCFE, 0x10325476, 0xC3D2E1F0) in
  be_bytes 4 h0 ++ be_bytes 4 h1 ++ be_bytes 4 h2 ++ be_bytes 4 h3
  ++ be_bytes 4 h4.

Definition hex_digit (x : N) : ascii :=
  if x <? 10 then ascii_of_N (48 + x) else ascii_of_N (87 + x).

Fixpoint hex (bs : list N) : string :=
  match bs with
  | [] => EmptyString
  | x :: bs' => String (hex_digit (x / 16)) (String (hex_digit (x mod 16)) (hex bs'))
  end.

(** The 16 bytes of a UUID with the version set to 5 and the variant to
    RFC 4122, as [UUID(bytes=hash[:16], version=5)] does. *)
Definition set_version (bs : list N) : list N :=
  let set i f l :=
    match l !! i with Some x => <[i := f x]> l | None => l end in
  set 8%nat (fun x => N.lor (N.land x 0x3F) 0x80)
    (set 6%nat (fun x => N.lor (N.land x 0x0F) 0x50) bs).

(** [str(u)] for a UUID [u] given by its bytes. *)
Definition uuid_str (bs : list N) : string :=
  (hex (firstn 4 bs) ++ "-" ++ hex (firstn 2 (skipn 4 bs)) ++ "-"
   ++ hex (firstn 2 (skipn 6 bs)) ++ "-" ++ hex (firstn 2 (skipn 8 bs)) ++ "-"
   ++ hex (skipn 10 bs))%string.

(** [name.encode("utf-8")] on ASCII text. *)
Definition encode (name : string) : list N :=
  map N_of_ascii (list_ascii_of_string name).

Definition uuid5 (namespace : list N) (name : string) : string :=
  uuid_str (set_version (firstn 16 (sha1 (namespace ++ encode name)))).

(** [uuid.UUID('6ba7b810-9dad-11d1-80b4-00c04fd430c8')] *)
Definition NAMESPACE : list N :=
  [0x6b; 0xa7; 0xb8; 0x10; 0x9d; 0xad; 0x11; 0xd1;
   0x80; 0xb4; 0x00; 0xc0; 0x4f; 0xd4; 0x30; 0xc8].

End Uuid.

Definition generate_company_id (normalized_name : string) : string :=
  Uuid.uuid5 Uuid.NAMESPACE normalized_name.

(** ** Python values and raw filings *)

Inductive pyval :=
  | PNone
  | PStr (s : string)
  | PInt (z : Z).

(** A raw filing, as loaded from the JSON input. *)
Abbreviation raw_filing := (gmap string pyval).

(** [f.get(key)] and [f.get(key, d)] *)
Definition get (f : raw_filing) (key : string) : pyval :=
  default PNone (f !! key).
Definition get_or (f : raw_filing) (key : string) (d : pyval) : pyval :=
  default d (f !! key).

(** Methods of [str] called on a value: any other value has no such
    attribute. *)
Definition py_lower (v : pyval) : result string :=
  match v with PStr s => Ok (Text.lower s) | _ => Raise AttributeError end.
Definition py_upper (v : pyval) : result string :=
  match v with PStr s => Ok (Text.upper s) | _ => Raise AttributeError end.
Definition py_strip (v : pyval) : result string :=
  match v with PStr s => Ok (Text.strip s) | _ => Raise AttributeError end.
Definition py_split (sep : string) (v : pyval) : result (list string) :=
  match v with PStr s => Ok (Text.split_on sep s) | _ => Raise AttributeError end.

(** [len(v)] *)
Definition py_len (v : pyval) : result nat :=
  match v with PStr s => Ok (String.length s) | _ => Raise TypeError end.

(** The truth value of [v]. *)
Definition truthy (v : pyval) : bool :=
  match v with
  | PNone => false
  | PStr s => negb (Text.is_empty s)
  | PInt z => negb (z =? 0)%Z
  end.

(** [x < y] *)
Definition py_lt (x y : pyval) : result bool :=
  match x, y with
  | PStr a, PStr b => Ok (Text.str_lt a b)
  | PInt a, PInt b => Ok (a <? b)%Z
  | _, _ => Raise TypeError
  end.

(** ** [list.sort(key=..., reverse=...)]

    A stable sort that compares keys with [<] only.  The result of a stable
    sort does not depend on the algorithm, and neither does the fact that a
    comparison raises: a sort of two elements or more compares every
    element with another one and, when the keys fall into classes that
    cannot be compared with each other, two keys of different classes.
    With [reverse=True] the list is reversed, sorted and reversed again. *)

Section Sort.
Context {A : Type} (key : A -> pyval).

Fixpoint insert_sorted (x : A) (l : list A) : result (list A) :=
  match l with
  | [] => Ok [x]
  | y :: l' =>
      let* lt := py_lt (key x) (key y) in
      if lt then Ok (x :: y :: l')
      else let* r := insert_sorted x l' in Ok (y :: r)
  end.

Fixpoint sort_into (l : list A) (sorted : list A) : result (list A) :=
  match l with
  | [] => Ok sorted
  | x :: l' => let* sorted' := insert_sorted x sorted in sort_into l' sorted'
  end.

Definition py_sort (reverse : bool) (l : list A) : result (list A) :=
  if reverse then let* r := sort_into (rev l) [] in Ok (rev r)
  else sort_into l [].

End Sort.

(** [keys.sort()] on a list of strings. *)
Fixpoint insert_key (k : string) (l : list string) : list string :=
  match l with
  | [] => [k]
  | y :: l' => if Text.str_lt k y then k :: y :: l' else y :: insert_key k l'
  end.

Definition sort_keys (keys : list string) : list string :=
  fold_left (fun sorted k => insert_key k sorted) keys [].

(** ** The schema of [schemas.py] *)

Record Filing := {
  filing_id : string;
  date_received : string;
  docket_number : string;
  submission_type : string;
  filing_status : string;
  document_urls : list string;
  detail_url : string
}.

Record Company := {
  id : string;
  entity_name : string;
  normalized_name : string;
  entity_type : string;
  is_applicant : bool;
  filing_count : Z;
  filings : list Filing;
  enrichment : gmap string pyval
}.

(** The dictionaries that [structure_data] builds before validation: the
    values read from the raw filing are not known to be strings. *)
Record filing_record := {
  fr_filing_id : pyval;
  fr_date_received : pyval;
  fr_docket_number : pyval;
  fr_submission_type : pyval;
  fr_filing_status : pyval;
  fr_document_urls : list string;
  fr_detail_url : pyval
}.

Record company_record := {
  cr_id : string;
  cr_entity_name : string;
  cr_normalized_name : string;
  cr_entity_type : string;
  cr_is_applicant : bool;
  cr_filing_count : Z;
  cr_enrichment : gmap string pyval;
  cr_filings : list filing_record
}.

(** The fields of a filing that fail the check of [Filing]: each of the
    six [str] fields must hold a string. *)
Definition not_str (field : string) (v : pyval) : list string :=
  match v with PStr _ => [] | _ => [field] end.

Definition filing_errors (r : filing_record) : list string :=
  not_str "filing_id" (fr_filing_id r)
  ++ not_str "date_received" (fr_date_received r)
  ++ not_str "docket_number" (fr_docket_number r)
  ++ not_str "submission_type" (fr_submission_type r)
  ++ not_str "filing_status" (fr_filing_status r)
  ++ not_str "detail_url" (fr_detail_url r).

Definition validate_filing (r : filing_record) : option Filing :=
  match fr_filing_id r, fr_date_received r, fr_docket_number r,
        fr_submission_type r, fr_filing_status r, fr_detail_url r with
  | PStr i, PStr d, PStr k, PStr t, PStr s, PStr u =>
      Some {| filing_id := i; date_received := d; docket_number := k;
              submission_type := t; filing_status := s;
              document_urls := fr_document_urls r; detail_url := u |}
  | _, _, _, _, _, _ => None
  end.

(** A validation error: the places of the record that were refused, as
    [("filings", i, field)] or [("filing_count")]. *)
Inductive error_loc :=
  | LocFiling (i : nat) (field : string)
  | LocFilingCount.

Fixpoint filings_errors (i : nat) (rs : list filing_record) : list error_loc :=
  match rs with
  | [] => []
  | r :: rs' => map (LocFiling i) (filing_errors r) ++ filings_errors (S i) rs'
  end.

Definition company_errors (r : company_record) : list error_loc :=
  (if (cr_filing_count r <? 0)%Z then [LocFilingCount] else [])
  ++ filings_errors 0 (cr_filings r).

Fixpoint validate_filings (rs : list filing_record) : option (list Filing) :=
  match rs with
  | [] => Some []
  | r :: rs' =>
      match validate_filing r, validate_filings rs' with
      | Some f, Some fs => Some (f :: fs)
      | _, _ => None
      end
  end.

(** The validation of the record by [Company], followed by
    [model_dump()]; or the error raised. *)
Definition validate_company (r : company_record) : Company + list error_loc :=
  match company_errors r, validate_filings (cr_filings r) with
  | [], Some fs =>
      inl {| id := cr_id r; entity_name := cr_entity_name r;
             normalized_name := cr_normalized_name r;
             entity_type := cr_entity_type r;
             is_applicant := cr_is_applicant r;
             filing_count := cr_filing_count r;
             filings := fs; enrichment := cr_enrichment r |}
  | errs, _ => inr errs
  end.

(** ** The world of a run: the clock and the history file *)

Inductive json :=
  | JNull
  | JBool (b : bool)
  | JNum (z : Z)
  | JStr (s : string)
  | JArr (l : list json)
  | JObj (l : list (string * json)).

(** [data/monitoring/validation_stats.json]: absent, present with a text
    that [json.load] refuses, or present with a JSON value. *)
Inductive file_state :=
  | Missing
  | Malformed
  | Stored (content : json).

Record World := {
  now : string;             (* datetime.now().isoformat() *)
  val_file : file_state
}.

(** ** [structure_data] *)

Definition is_application_type (filing : raw_filing) : result bool :=
  let* sub_type := py_upper (get_or filing "submission_type" (PStr "")) in
  Ok (existsb (fun t => Text.contains t sub_type)
        ["APPLICATION"; "REQUEST"; "PETITION"]).

(** The dictionary [grouped], in insertion order. *)
Definition groups : Type := list (string * list raw_filing).

(** [grouped[k].append(f)] on a [defaultdict(list)] *)
Fixpoint group_append (k : string) (f : raw_filing) (grouped : groups) : groups :=
  match grouped with
  | [] => [(k, [f])]
  | (k', fs) :: grouped' =>
      if String.eqb k' k then (k', fs ++ [f]) :: grouped'
      else (k', fs) :: group_append k f grouped'
  end.

Fixpoint group_get (k : string) (grouped : groups) : list raw_filing :=
  match grouped with
  | [] => []
  | (k', fs) :: grouped' =>
      if String.eqb k' k then fs else group_get k grouped'
  end.

(** [grouped[k].extend(fs)] *)
Fixpoint group_extend (k : string) (fs : list raw_filing) (grouped : groups)
    : groups :=
  match grouped with
  | [] => []
  | (k', fs') :: grouped' =>
      if String.eqb k' k then (k', fs' ++ fs) :: grouped'
      else (k', fs') :: group_extend k fs grouped'
  end.

(** [del grouped[k]] *)
Fixpoint group_del (k : string) (grouped : groups) : groups :=
  match grouped with
  | [] => []
  | (k', fs) :: grouped' =>
      if String.eqb k' k then grouped' else (k', fs) :: group_del k grouped'
  end.

(** The test that selects the IPES filings. *)
Definition is_ipes (f : raw_filing) : result bool :=
  let* proc_desc := py_lower (get_or f "proceeding_description" (PStr "")) in
  let* docket := py_lower (get_or f "docket_number" (PStr "")) in
  Ok (Text.contains "voip" proc_desc || Text.contains "52.15" proc_desc
      || Text.contains "inbox-52.15" docket).

(** The first loop: group the filings by normalized company name. *)
Fixpoint group_filings (filings : list raw_filing) (grouped : groups)
    : result groups :=
  match filings with
  | [] => Ok grouped
  | f :: filings' =>
      let* ipes := is_ipes f in
      if ipes then
        let* name := py_strip (get_or f "company_name" (PStr "")) in
        if Text.is_empty name || should_exclude name
        then group_filings filings' grouped
        else
          let normalized := normalize_company_name name in
          if negb (Text.is_empty normalized)
          then group_filings filings' (group_append normalized f grouped)
          else group_filings filings' grouped
      else group_filings filings' grouped
  end.

(** The penalty of the token comparison, summed over [zip(w1, w2)]. *)
Definition token_penalty (diff_count : float) (p : string * string) : float :=
  let '(wa, wb) := p in
  if negb (String.eqb wa wb) then
    if String.eqb (wa +:+ "s") wb || String.eqb (wb +:+ "s") wa
    then (diff_count + 0.1)%float
    else (diff_count + 1)%float
  else diff_count.

Definition diff_count (w1 w2 : list string) : float :=
  fold_left token_penalty (zip w1 w2) 0%float.

Definition is_duplicate (k1 k2 : string) : bool :=
  let ratio := Difflib.ratio k1 k2 in
  if PrimFloat.ltb 0.95 ratio then true
  else
    let w1 := Text.split_ws k1 in
    let w2 := Text.split_ws k2 in
    if (length w1 =? length w2)%nat
    then PrimFloat.ltb (diff_count w1 w2) 0.2
    else false.

(** The inner loop of the deduplication pass over [keys[i+1:]]. *)
Fixpoint merge_into (k1 : string) (rest : list string)
    (skip_keys : gset string) (grouped : groups) : gset string * groups :=
  match rest with
  | [] => (skip_keys, grouped)
  | k2 :: rest' =>
      if bool_decide (k2 ∈ skip_keys) then merge_into k1 rest' skip_keys grouped
      else if is_duplicate k1 k2 then
        let grouped := group_extend k1 (group_get k2 grouped) grouped in
        let grouped := group_del k2 grouped in
        merge_into k1 rest' ({[k2]} ∪ skip_keys) grouped
      else merge_into k1 rest' skip_keys grouped
  end.

(** The outer loop over the sorted keys. *)
Fixpoint dedup (keys : list string) (skip_keys : gset string)
    (grouped : groups) : groups :=
  match keys with
  | [] => grouped
  | k1 :: rest =>
      if bool_decide (k1 ∈ skip_keys) then dedup rest skip_keys grouped
      else
        let '(skip_keys', grouped') := merge_into k1 rest skip_keys grouped in
        dedup rest skip_keys' grouped'
  end.

Definition deduplicate (grouped : groups) : groups :=
  dedup (sort_keys (map fst grouped)) ∅ grouped.

(** [max(all_names, key=len)]: the first of the longest names.  [best] and
    [best_len] are the maximum so far. *)
Fixpoint max_by_len (best : string) (best_len : nat) (names : list pyval)
    : result string :=
  match names with
  | [] => Ok best
  | v :: names' =>
      let* n := py_len v in
      match v with
      | PStr s =>
          if (best_len <? n)%nat then max_by_len s n names'
          else max_by_len best best_len names'
      | _ => Raise TypeError
      end
  end.

Definition primary_name_of (normalized_name : string)
    (all_names : list pyval) : result string :=
  match all_names with
  | [] => Ok normalized_name
  | v :: names' =>
      let* n := py_len v in
      match v with
      | PStr s => max_by_len s n names'
      | _ => Raise TypeError
      end
  end.

(** [any(is_application_type(f) for f in company_filings)] *)
Fixpoint any_application (company_filings : list raw_filing) : result bool :=
  match company_filings with
  | [] => Ok false
  | f :: fs =>
      let* b := is_application_type f in
      if b then Ok true else any_application fs
  end.

(** The child record of one raw filing. *)
Definition process_filing (f : raw_filing) : result filing_record :=
  let* urls :=
    (if truthy (get f "document_urls")
     then py_split "; " (get_or f "document_urls" (PStr ""))
     else Ok []) in
  let urls :=
    match urls with
    | [] => []
    | [EmptyString] => []
    | _ => urls
    end in
  Ok {| fr_filing_id := get f "submission_id";
        fr_date_received := get f "date_received";
        fr_docket_number := get f "docket_number";
        fr_submission_type := get f "submission_type";
        fr_filing_status := get f "filing_status";
        fr_document_urls := urls;
        fr_detail_url := get f "detail_url" |}.

Fixpoint process_filings (company_filings : list raw_filing)
    : result (list filing_record) :=
  match company_filings with
  | [] => Ok []
  | f :: fs =>
      let* r := process_filing f in
      let* rs := process_filings fs in
      Ok (r :: rs)
  end.

(** What the body of the last loop decides for one cluster. *)
Inductive outcome :=
  | Emitted (c : Company)
  | Invalid (name : string) (errors : list error_loc)
  | Skipped.

Definition assemble (normalized_name : string)
    (company_filings : list raw_filing) : result outcome :=
  let all_names :=
    map (fun f => get_or f "company_name" (PStr "")) company_filings in
  let* primary_name := primary_name_of normalized_name all_names in
  let is_individual := is_likely_individual primary_name in
  let* has_application := any_application company_filings in
  let* processed_filings := process_filings company_filings in
  let* processed_filings := py_sort fr_date_received true processed_filings in
  let company_id := generate_company_id normalized_name in
  let company_record :=
    {| cr_id := company_id;
       cr_entity_name := primary_name;
       cr_normalized_name := normalized_name;
       cr_entity_type := if is_individual then "Individual" else "Company";
       cr_is_applicant := has_application;
       cr_filing_count := Z.of_nat (length processed_filings);
       cr_enrichment := ∅;
       cr_filings := processed_filings |} in
  if has_application && negb is_individual then
    match validate_company company_record with
    | inl validated_company => Ok (Emitted validated_company)
    | inr e => Ok (Invalid normalized_name e)
    end
  else Ok Skipped.

Section Run.

(** [str(e)] for a validation error [e] of the schema library. *)
Variable error_text : list error_loc -> string.

Record error_entry := { err_name : string; err_error : string }.

(** The state of the last loop: [structured_companies],
    [validation_errors] and [error_log]. *)
Definition acc : Type := list Company * Z * list error_entry.

Fixpoint assemble_all (grouped : groups) (st : acc) : result acc :=
  match grouped with
  | [] => Ok st
  | (normalized_name, company_filings) :: grouped' =>
      let* o := assemble normalized_name company_filings in
      let '(structured_companies, validation_errors, error_log) := st in
      match o with
      | Emitted c =>
          assemble_all grouped'
            (structured_companies ++ [c], validation_errors, error_log)
      | Invalid name e =>
          assemble_all grouped'
            (structured_companies, (validation_errors + 1)%Z,
             error_log ++ [{| err_name := name; err_error := error_text e |}])
      | Skipped => assemble_all grouped' st
      end
  end.

Definition validation_stats (w : World) (structured_companies : list Company)
    (validation_errors : Z) (error_log : list error_entry) : json :=
  JObj [ ("timestamp", JStr (now w));
         ("total_processed",
          JNum (Z.of_nat (length structured_companies) + validation_errors));
         ("valid_records", JNum (Z.of_nat (length structured_companies)));
         ("invalid_records", JNum validation_errors);
         ("error_samples",
          JArr (map (fun e => JObj [("name", JStr (err_name e));
                                    ("error", JStr (err_error e))])
                    (take 5 error_log))) ].

(** The history read back from the file. *)
Definition load_history (w : World) : list json :=
  match val_file w with
  | Missing => []
  | Malformed => []
  | Stored (JArr content) => content
  | Stored content => [content]
  end.

Definition structure_data (w : World) (filings : list raw_filing)
    : result (list Company * World) :=
  let* grouped := group_filings filings [] in
  let grouped := deduplicate grouped in
  let* st := assemble_all grouped ([], 0%Z, []) in
  let '(structured_companies, validation_errors, error_log) := st in
  (* the key [latest_filing_date] is in no record *)
  let* structured_companies :=
    py_sort (fun _ : Company => PStr "") true structured_companies in
  let stats :=
    validation_stats w structured_companies validation_errors error_log in
  let val_history := load_history w ++ [stats] in
  Ok (structured_companies,
      {| now := now w; val_file := Stored (JArr val_history) |}).

End Run.

(** ** Sample inputs *)

(** The raw filing with the given fields, as [json.load] builds it. *)
Definition filing_of (fields : list (string * pyval)) : raw_filing :=
  list_to_map fields.

(** The two filings of the end-to-end scenario of the specification. *)
Definition scenario_1 : raw_filing :=
  filing_of [ ("company_name", PStr "Acme Communications LLC");
              ("submission_type", PStr "APPLICATION FOR AUTHORIZATION");
              ("date_received", PStr "2023-05-01");
              ("document_urls", PStr "http://x/doc1") ].

Definition scenario_2 : raw_filing :=
  filing_of [ ("company_name", PStr "Acme Communications");
              ("submission_type", PStr "APPLICATION");
              ("date_received", PStr "2023-06-01");
              ("document_urls", PStr "") ].

(** A filing of the scenario with the fields that the fetch stage adds:
    an IPES proceeding and strings for the other fields of the schema. *)
Definition fetched (f : raw_filing) (sid docket status url : string)
    : raw_filing :=
  <["proceeding_description" := PStr "Interconnected VoIP Numbering Authorization"]>
    (<["submission_id" := PStr sid]>
       (<["docket_number" := PStr docket]>
          (<["filing_status" := PStr status]>
             (<["detail_url" := PStr url]> f)))).

(** A batch with a company that is emitted (one of its filings has no
    date), a cluster of comments and a cluster that fails the validation
    (no [submission_id]). *)
Definition sample_batch : list raw_filing :=
  [ fetched scenario_1 "101" "INBOX-52.15" "DISSEMINATED" "u101";
    filing_of [ ("company_name", PStr "Beta Networks Inc");
                ("submission_type", PStr "COMMENT");
                ("submission_id", PStr "102");
                ("date_received", PStr "2023-02-02");
                ("docket_number", PStr "INBOX-52.15");
                ("filing_status", PStr "DISSEMINATED");
                ("detail_url", PStr "u102") ];
    fetched (<["date_received" := PStr ""]> scenario_2)
      "103" "INBOX-52.15" "DISSEMINATED" "u103";
    filing_of [ ("company_name", PStr "Gamma Telecom LLC");
                ("submission_type", PStr "PETITION");
                ("date_received", PStr "2024-01-01");
                ("proceeding_description", PStr "numbering under 52.15") ];
    fetched scenario_2 "104" "INBOX-52.15" "DISSEMINATED" "u104" ].

Definition sample_world : World :=
  {| now := "2024-03-01T12:00:00"; val_file := Missing |}.

Definition sample_text (e : list error_loc) : string :=
  "validation error".

(** What the run on [sample_batch] in [sample_world] returns. *)
Definition sample_company : Company :=
  {| id := "9abc54d9-a083-540d-b4bf-db93baf9200f";
     entity_name := "Acme Communications LLC";
     normalized_name := "acme communications";
     entity_type := "Company";
     is_applicant := true;
     filing_count := 3;
     filings :=
       [ {| filing_id := "104"; date_received := "2023-06-01";
            docket_number := "INBOX-52.15"; submission_type := "APPLICATION";
            filing_status := "DISSEMINATED"; document_urls := [];
            detail_url := "u104" |};
         {| filing_id := "101"; date_received := "2023-05-01";
            docket_number := "INBOX-52.15";
            submission_type := "APPLICATION FOR AUTHORIZATION";
            filing_status := "DISSEMINATED";
            document_urls := ["http://x/doc1"]; detail_url := "u101" |};
         {| filing_id := "103"; date_received := "";
            docket_number := "INBOX-52.15"; submission_type := "APPLICATION";
            filing_status := "DISSEMINATED"; document_urls := [];
            detail_url := "u103" |} ];
     enrichment := ∅ |}.

Definition sample_world_after : World :=
  {| now := "2024-03-01T12:00:00";
     val_file :=
       Stored (JArr
         [ JObj [ ("timestamp", JStr "2024-03-01T12:00:00");
                  ("total_processed", JNum 2);
                  ("valid_records", JNum 1);
                  ("invalid_records", JNum 1);
                  ("error_samples",
                   JArr [ JObj [ ("name", JStr "gamma telecom");
                                 ("error", JStr "validation error") ] ]) ] ])
  |}.

(** A second run: another batch, clock, history file and error text. *)
Definition second_batch : list raw_filing :=
  [ fetched scenario_2 "201" "INBOX-52.15" "PENDING" "u201" ].

Definition second_world : World :=
  {| now := "2024-04-02T08:30:00";
     val_file := Stored (JObj [("note", JStr "old")]) |}.

Definition second_text (e : list error_loc) : string := "other".

Definition second_company : Company :=
  {| id := "9abc54d9-a083-540d-b4bf-db93baf9200f";
     entity_name := "Acme Communications";
     normalized_name := "acme communications";
     entity_type := "Company";
     is_applicant := true;
     filing_count := 1;
     filings :=
       [ {| filing_id := "201"; date_received := "2023-06-01";
            docket_number := "INBOX-52.15"; submission_type := "APPLICATION";
            filing_status := "PENDING"; document_urls := [];
            detail_url := "u201" |} ];
     enrichment := ∅ |}.

Definition second_world_after : World :=
  {| now := "2024-04-02T08:30:00";
     val_file :=
       Stored (JArr
         [ JObj [("note", JStr "old")];
           JObj [ ("timestamp", JStr "2024-04-02T08:30:00");
                  ("total_processed", JNum 1);
                  ("valid_records", JNum 1);
                  ("invalid_records", JNum 0);
                  ("error_samples", JArr []) ] ])
  |}.

(** A filing of another proceeding. *)
Definition off_topic : raw_filing :=
  filing_of [ ("company_name", PStr "Delta Services LLC");
              ("submission_type", PStr "APPLICATION");
              ("proceeding_description", PStr "Rural broadband");
              ("docket_number", PStr "10-90") ].

(** ** The vocabulary of the properties *)

(** [x >= y] on values: the comparison [x < y] is defined and false. *)
Definition py_ge (x y : pyval) : Prop := py_lt x y = Ok false.

(** [x] may stand before [y] in an ascending list. *)
Definition key_le {A : Type} (key : A -> pyval) (x y : A) : Prop :=
  py_ge (key y) (key x).

(** A company of the output comes from a cluster. *)
Definition from_cluster (grouped : groups) (c : Company) : Prop :=
  exists name fs, (name, fs) ∈ grouped /\ assemble name fs = Ok (Emitted c).

(** An entry of the error log comes from a cluster that failed the
    validation: it carries the normalized name and the text of the error. *)
Definition from_invalid (error_text : list error_loc -> string)
    (grouped : groups) (e : error_entry) : Prop :=
  exists fs errs,
    (err_name e, fs) ∈ grouped
    /\ assemble (err_name e) fs = Ok (Invalid (err_name e) errs)
    /\ err_error e = error_text errs.

(** What the last loop keeps of one cluster: the company, when the
    cluster is emitted, and the entry of the error log, when the cluster
    fails the validation. *)
Definition emitted_of (cluster : string * list raw_filing) : list Company :=
  match assemble cluster.1 cluster.2 with
  | Ok (Emitted c) => [c]
  | _ => []
  end.

Definition error_of (error_text : list error_loc -> string)
    (cluster : string * list raw_filing) : list error_entry :=
  match assemble cluster.1 cluster.2 with
  | Ok (Invalid _ errs) =>
      [{| err_name := cluster.1; err_error := error_text errs |}]
  | _ => []
  end.

(** The companies and the error log of a dictionary of clusters, in the
    order of the dictionary. *)
Definition companies_of (grouped : groups) : list Company :=
  concat (map emitted_of grouped).

Definition error_log_of (error_text : list error_loc -> string)
    (grouped : groups) : list error_entry :=
  concat (map (error_of error_text) grouped).

(** Descending order of the dates of a list of filings. *)
Definition dates_descending (fls : list Filing) : Prop :=
  StronglySorted
    (fun x y => Text.str_lt (date_received x) (date_received y) = false) fls.

(** One sample of the report. *)
Definition sample_json (e : error_entry) : json :=
  JObj [("name", JStr (err_name e)); ("error", JStr (err_error e))].


(** A filing of an IPES proceeding without [date_received]. *)
Definition undated : raw_filing :=
  filing_of [ ("company_name", PStr "Acme Communications LLC");
              ("proceeding_description", PStr "VoIP numbering") ].

(** Every character of [s] satisfies [P]. *)
Fixpoint str_Forall (P : ascii -> Prop) (s : string) : Prop :=
  match s with
  | EmptyString => True
  | String c s' => P c /\ str_Forall P s'
  end.

(** [s] is empty or starts with a character that is not white space. *)
Definition no_lead (s : string) : Prop :=
  match s with
  | EmptyString => True
  | String c _ => Text.is_space c = false
  end.

(** The white space of [s] consists of single spaces; [prev_space] tells
    whether the character before [s] is white space. *)
Fixpoint collapsed (prev_space : bool) (s : string) : Prop :=
  match s with
  | EmptyString => True
  | String c s' =>
      if Text.is_space c
      then c = " "%char /\ prev_space = false /\ collapsed true s'
      else collapsed false s'
  end.

(** Every run of white space replaced by one space; [in_run] tells whether
    the characters before [s] are a run already replaced. *)
Fixpoint collapse (in_run : bool) (s : string) : string :=
  match s with
  | EmptyString => EmptyString
  | String c s' =>
      if Text.is_space c
      then if in_run then collapse true s' else String " " (collapse true s')
      else String c (collapse false s')
  end.

(** The number of white space characters at the start of [s]. *)
Fixpoint span (s : string) : nat :=
  match s with
  | String c s' => if Text.is_space c then S (span s') else O
  | EmptyString => O
  end.

(** The effect of the substitution of [[^\w\s]] on one character. *)
Definition depunct (c : ascii) : ascii :=
  if negb (Text.is_word c || Text.is_space c) then " "%char else c.

(** Characters that [lower] leaves alone, and characters of [\w] or [\s]. *)
Definition lower_fixed (c : ascii) : Prop := Text.lower_char c = c.

Definition word_or_space (c : ascii) : Prop :=
  Text.is_word c || Text.is_space c = true.

(** A block that lies within [a[alo:ahi]]. *)
Definition within (alo ahi : nat) (best : Difflib.block) : Prop :=
  (alo <= best.1.1 /\ best.1.1 + best.2 <= ahi)%nat.

(** The lengths recorded in [j2len] are at most [n]. *)
Definition bounded (n : nat) (j2len : gmap nat nat) : Prop :=
  map_Forall (fun _ k => (k <= n)%nat) j2len.

(** The steps that a stack of ranges still needs. *)
Fixpoint weight (queue : list (nat * nat * nat * nat)) : nat :=
  match queue with
  | [] => 0
  | (alo, ahi, _, _) :: queue' => 2 * (ahi - alo) + 1 + weight queue'
  end.

(** The ranges of the stack are not reversed. *)
Definition well_formed (queue : list (nat * nat * nat * nat)) : Prop :=
  Forall (fun r => (r.1.1.1 <= r.1.1.2)%nat) queue.

(** The least number of characters that a match of [r] takes. *)
Fixpoint min_len (r : regex) : nat :=
  match r with
  | Lit l => String.length l
  | Cls _ => 1
  | Seq r1 r2 => min_len r1 + min_len r2
  | Alt r1 r2 => Nat.min (min_len r1) (min_len r2)
  | Eps | Opt _ | Star _ | WordB | Bol | Eol => 0
  end.

(** A continuation that reports [d] characters more than it is given. *)
Definition advances (d : nat) (k : cont) : Prop :=
  forall prev s n m, k prev s n = Some m -> (n + d <= m)%nat.

(** ** Further vocabulary: clusters and typed batches *)

(** The keys of the dictionary [grouped] and the filings it holds. *)
Definition group_keys (grouped : groups) : list string := map fst grouped.
Definition group_filings_of (grouped : groups) : list raw_filing :=
  concat (map snd grouped).

(** The field [key] of [f] is absent or holds a string. *)
Definition str_or_missing (f : raw_filing) (key : string) : Prop :=
  match f !! key with
  | None | Some (PStr _) => True
  | Some _ => False
  end.

(** A raw filing as the fetch stage writes it: the fields that the
    structuring pass reads hold strings, and [date_received] is present. *)
Definition well_typed (f : raw_filing) : Prop :=
  str_or_missing f "proceeding_description"
  /\ str_or_missing f "docket_number"
  /\ str_or_missing f "company_name"
  /\ str_or_missing f "submission_type"
  /\ str_or_missing f "document_urls"
  /\ exists d, f !! "date_received" = Some (PStr d).

(** The filing passes the three tests of the first loop: it belongs to an
    IPES proceeding, and its name is not empty, not excluded and does not
    normalize to the empty key.  [key] is the key it is grouped under. *)
Definition accepted (f : raw_filing) (key : string) : Prop :=
  exists name,
    is_ipes f = Ok true
    /\ get_or f "company_name" (PStr "") = PStr name
    /\ Text.is_empty (Text.strip name) || should_exclude (Text.strip name) = false
    /\ key = normalize_company_name (Text.strip name)
    /\ key <> "".

(** The sort key of [x] is a string. *)
Definition str_key {A : Type} (key : A -> pyval) (x : A) : Prop :=
  exists s, key x = PStr s.

(** The name of the filing cannot be used: once stripped it is empty, or
    it matches an exclusion pattern, or it normalizes to the empty key. *)
Definition unusable_name (f : raw_filing) : Prop :=
  exists name,
    get_or f "company_name" (PStr "") = PStr name
    /\ (Text.is_empty (Text.strip name) || should_exclude (Text.strip name) = true
        \/ normalize_company_name (Text.strip name) = "").

(** The first loop passes over the filing: it belongs to no IPES
    proceeding, or its name cannot be used. *)
Definition rejected (f : raw_filing) : Prop :=
  is_ipes f = Ok false \/ (is_ipes f = Ok true /\ unusable_name f).

(** The record of a run without companies and without errors. *)
Definition empty_stats (w : World) : json :=
  JObj [ ("timestamp", JStr (now w));
         ("total_processed", JNum 0);
         ("valid_records", JNum 0);
         ("invalid_records", JNum 0);
         ("error_samples", JArr []) ].

(** A filing of the commission itself. *)
Definition fcc_filing : raw_filing :=
  filing_of [ ("company_name", PStr " Federal Communications Commission ");
              ("submission_type", PStr "APPLICATION");
              ("date_received", PStr "2024-02-02");
              ("docket_number", PStr "INBOX-52.15") ].

(** A character of a normalized key: a space, or a lower case letter, a
    digit or an underscore. *)
Definition key_char (c : ascii) : Prop :=
  c = " "%char \/ (Text.is_word c = true /\ Text.lower_char c = c).

(** ** [main] of [structure_data.py]: the relational projection *)

(** A row of [companies.csv] and a row of [filings.csv]. *)
Record company_row := {
  row_id : string;
  row_entity_name : string;
  row_normalized_name : string;
  row_entity_type : string;
  row_filing_count : Z;
  latest_filing_date : string
}.

Record filing_row := {
  company_id : string;
  row_filing_id : string;
  row_date_received : string;
  row_docket_number : string;
  row_submission_type : string;
  status : string;
  primary_doc_url : string
}.

Definition company_row_of (company : Company) : company_row :=
  {| row_id := id company;
     row_entity_name := entity_name company;
     row_normalized_name := normalized_name company;
     row_entity_type := entity_type company;
     row_filing_count := filing_count company;
     latest_filing_date :=
       match filings company with
       | filing :: _ => date_received filing
       | [] => ""
       end |}.

Definition filing_rows_of (company : Company) : list filing_row :=
  map (fun filing =>
         {| company_id := id company;
            row_filing_id := filing_id filing;
            row_date_received := date_received filing;
            row_docket_number := docket_number filing;
            row_submission_type := submission_type filing;
            status := filing_status filing;
            primary_doc_url :=
              match document_urls filing with
              | url :: _ => url
              | [] => ""
              end |})
      (filings company).

(** The three files that [main] writes, the CSV files as lists of rows. *)
Record outputs := {
  companies_with_filings : list Company;
  companies_csv : list company_row;
  filings_csv : list filing_row
}.

Definition write_outputs (structured_data : list Company) : outputs :=
  {| companies_with_filings := structured_data;
     companies_csv := map company_row_of structured_data;
     filings_csv := concat (map filing_rows_of structured_data) |}.

(** How [main] ends.  The input file is absent, or it holds a JSON list of
    objects, the batch. *)
Inductive main_outcome :=
  | InputMissing
      (* the message is printed, nothing is written *)
  | Raised (e : exn)
      (* [structure_data] raised, nothing is written *)
  | Written (o : outputs) (w' : World)
      (* the files are written and the first record is printed *)
  | WrittenThenIndexError (o : outputs) (w' : World).
      (* the files are written, then [structured_data[0]] raises *)

Definition main (error_text : list error_loc -> string) (w : World)
    (input : option (list raw_filing)) : main_outcome :=
  match input with
  | None => InputMissing
  | Some data =>
      match structure_data error_text w data with
      | Raise e => Raised e
      | Ok (structured_data, w') =>
          let o := write_outputs structured_data in
          match structured_data with
          | [] => WrittenThenIndexError o w'
          | _ :: _ => Written o w'
          end
      end
  end.

(** The outputs of a run of [main] that got as far as writing them. *)
Definition main_outputs (r : main_outcome) : option outputs :=
  match r with
  | Written o _ | WrittenThenIndexError o _ => Some o
  | InputMissing | Raised _ => None
  end.

(** ** The download stage: [sanitize_filename] and [build_download_queue]
    of [download_pdfs_robust.py] *)

(** [s[:n]] *)
Fixpoint take_str (n : nat) (s : string) : string :=
  match n, s with
  | S n', String c s' => String c (take_str n' s')
  | _, _ => EmptyString
  end.

(** [s.lstrip(chars)], [s.rstrip(chars)] and [s.strip(chars)], the set of
    characters given by [p]. *)
Fixpoint lstrip_with (p : ascii -> bool) (s : string) : string :=
  match s with
  | String c s' => if p c then lstrip_with p s' else s
  | EmptyString => EmptyString
  end.

Fixpoint rstrip_with (p : ascii -> bool) (s : string) : string :=
  match s with
  | EmptyString => EmptyString
  | String c s' =>
      match rstrip_with p s' with
      | EmptyString => if p c then EmptyString else String c EmptyString
      | r => String c r
      end
  end.

Definition strip_with (p : ascii -> bool) (s : string) : string :=
  rstrip_with p (lstrip_with p s).

Definition is_underscore (c : ascii) : bool := Ascii.eqb c "_".

(** The class of the first substitution, by the codes of its characters:
    the angle brackets, the colon, the double quote, the slash, the
    backslash, the bar, the question mark and the star. *)
Definition forbidden (c : ascii) : bool :=
  existsb (N.eqb (Text.code c)) [60; 62; 58; 34; 47; 92; 124; 63; 42]%N.

Definition re_forbidden : regex := Cls forbidden.
Definition re_underscores : regex := Plus is_underscore.

Definition sanitize_filename (name : string) : string :=
  if Text.is_empty name then "unknown"
  else
    let name := sub false re_forbidden "_" name in
    let name := sub false re_spaces "_" name in
    let name := sub false re_underscores "_" name in
    strip_with is_underscore (take_str 80 name).

(** The last character of [s] is [c]. *)
Fixpoint ends_with_char (c : ascii) (s : string) : bool :=
  match s with
  | EmptyString => false
  | String x EmptyString => Ascii.eqb x c
  | String _ s' => ends_with_char c s'
  end.

(** Every run of characters of [p] replaced by the character [r]. *)
Fixpoint collapse_with (p : ascii -> bool) (r : ascii) (in_run : bool)
    (s : string) : string :=
  match s with
  | EmptyString => EmptyString
  | String c s' =>
      if p c
      then if in_run then collapse_with p r true s'
           else String r (collapse_with p r true s')
      else String c (collapse_with p r false s')
  end.

(** The number of characters of [p] at the start of [s]. *)
Fixpoint span_with (p : ascii -> bool) (s : string) : nat :=
  match s with
  | String c s' => if p c then S (span_with p s') else O
  | EmptyString => O
  end.

From Stdlib Require Import DecimalString.

(** An entry of the download queue; its [filepath] is the output
    directory joined with [filename]. *)
Record queue_entry := {
  url : string;
  entry_company_name : string;
  filename : string
}.

(** [s.replace('/', '_')] *)
Definition replace_slash (s : string) : string :=
  Text.map_str (fun c => if Ascii.eqb c "/" then "_"%char else c) s.

(** [str(idx)] for a position [idx] *)
Definition str_of_nat (idx : nat) : string :=
  NilZero.string_of_uint (Nat.to_uint idx).

Definition doc_id_of (url : string) (idx : nat) : string :=
  if Text.contains "/document/" url
  then replace_slash (List.last (Text.split_on "/document/" url) "")
  else str_of_nat idx.

(** The loop over [enumerate(urls, 1)], from position [idx] on. *)
Fixpoint queue_urls (name safe_name : string) (idx : nat)
    (urls : list string) : list queue_entry :=
  match urls with
  | [] => []
  | u :: urls' =>
      if Text.is_empty u then queue_urls name safe_name (S idx) urls'
      else
        {| url := u;
           entry_company_name := name;
           filename := safe_name +:+ "_" +:+ doc_id_of u idx +:+ ".pdf" |}
        :: queue_urls name safe_name (S idx) urls'
  end.

Definition queue_company (company : Company) : list queue_entry :=
  let name := entity_name company in
  let safe_name := sanitize_filename name in
  concat (map (fun filing => queue_urls name safe_name 1 (document_urls filing))
              (filings company)).

(** [build_download_queue(companies, limit)] on the records that the
    structuring pass wrote; [limit] is [None] or an integer. *)
Definition build_download_queue (companies : list Company)
    (limit : option Z) : list queue_entry :=
  let queue := concat (map queue_company companies) in
  match limit with
  | Some l => if negb (l =? 0)%Z && (0 <? l)%Z then take (Z.to_nat l) queue
              else queue
  | None => queue
  end.

(** ** The fetch stage: [safe_get] and [normalize_filing] of [fetch.py] *)

(** [d[k]] for a dictionary given by its items, [None] when [k] is not a
    key. *)
Fixpoint dict_get (k : string) (items : list (string * json)) : option json :=
  match items with
  | [] => None
  | (k', v) :: items' => if String.eqb k' k then Some v else dict_get k items'
  end.

(** [sep.join(parts)] *)
Fixpoint join (sep : string) (parts : list string) : string :=
  match parts with
  | [] => ""
  | [p] => p
  | p :: parts' => p +:+ sep +:+ join sep parts'
  end.

(** The elements over which [for x in v] runs: those of a list, the
    characters of a string, the keys of a dictionary; other values are not
    iterable. *)
Definition py_iter (v : json) : result (list json) :=
  match v with
  | JArr l => Ok l
  | JStr s => Ok (map (fun c => JStr (String c "")) (list_ascii_of_string s))
  | JObj items => Ok (map (fun kv => JStr kv.1) items)
  | JNull | JBool _ | JNum _ => Raise TypeError
  end.

Section Fetch.

(** [str(v)] for a list or a dictionary [v]. *)
Variable repr : json -> string.

(** [str(v)] for a value that is not [None]. *)
Definition py_str (v : json) : string :=
  match v with
  | JStr s => s
  | JNum z => NilZero.string_of_int (Z.to_int z)
  | JBool true => "True"
  | JBool false => "False"
  | _ => repr v
  end.

(** [safe_get(d, *keys)] with the default [""]. *)
Fixpoint safe_get (d : json) (keys : list string) : string :=
  match keys with
  | [] => match d with JNull => "" | _ => py_str d end
  | k :: keys' =>
      match d with
      | JObj items =>
          match dict_get k items with
          | Some cur => safe_get cur keys'
          | None => ""
          end
      | _ => ""
      end
  end.

Definition is_dict (v : json) : bool :=
  match v with JObj _ => true | _ => false end.

(** The loops that collect the field [key] of the dictionaries of a list,
    leaving out the empty values. *)
Fixpoint collect (key : string) (elems : list json) : list string :=
  match elems with
  | [] => []
  | p :: elems' =>
      if is_dict p then
        let name := safe_get p [key] in
        if negb (Text.is_empty name) then name :: collect key elems'
        else collect key elems'
      else collect key elems'
  end.

(** The loop for [bureau]: the first value that is not empty. *)
Fixpoint first_bureau (elems : list json) : string :=
  match elems with
  | [] => ""
  | p :: elems' =>
      if is_dict p then
        let b := safe_get p ["bureau_name"] in
        if negb (Text.is_empty b) then b else first_bureau elems'
      else first_bureau elems'
  end.

(** The loop for [lawfirm_names]: strings are taken as they are. *)
Fixpoint collect_lawfirms (elems : list json) : list string :=
  match elems with
  | [] => []
  | lf :: elems' =>
      match lf with
      | JObj _ =>
          let name := safe_get lf ["name"] in
          if negb (Text.is_empty name) then name :: collect_lawfirms elems'
          else collect_lawfirms elems'
      | JStr s => s :: collect_lawfirms elems'
      | _ => collect_lawfirms elems'
      end
  end.

(** [filing.get(key, [])], iterated. *)
Definition get_list (filing : list (string * json)) (key : string)
    : result (list json) :=
  py_iter (default (JArr []) (dict_get key filing)).

(** [normalize_filing(filing)] for a dictionary [filing], given by its
    items. *)
Definition normalize_filing (filing : list (string * json))
    : result raw_filing :=
  let d := JObj filing in
  let submission_id := safe_get d ["id_submission"] in
  let date_received := safe_get d ["date_received"] in
  let submission_type := safe_get d ["submissiontype"; "description"] in
  let* procs := get_list filing "proceedings" in
  let dockets := collect "name" procs in
  let proc_descriptions := collect "description" procs in
  let bureau := first_bureau procs in
  let* filers := get_list filing "filers" in
  let filer_names := collect "name" filers in
  let* authors := get_list filing "authors" in
  let author_names := collect "name" authors in
  let* lawfirms := get_list filing "lawfirms" in
  let lawfirm_names := collect_lawfirms lawfirms in
  let* docs := get_list filing "documents" in
  let doc_urls := collect "src" docs in
  let status := safe_get d ["filingstatus"; "description"] in
  let detail_url :=
    if negb (Text.is_empty submission_id)
    then "https://www.fcc.gov/ecfs/filing/" +:+ submission_id else "" in
  Ok (filing_of
        [ ("submission_id", PStr submission_id);
          ("company_name", PStr (join "; " filer_names));
          ("date_received",
           PStr (if (10 <? String.length date_received)%nat
                 then take_str 10 date_received else date_received));
          ("submission_type", PStr submission_type);
          ("docket_number", PStr (join "; " dockets));
          ("proceeding_description",
           PStr (take_str 200 (join "; " proc_descriptions)));
          ("bureau", PStr bureau);
          ("filing_status", PStr status);
          ("contact_attorney", PStr (join "; " author_names));
          ("law_firm", PStr (join "; " lawfirm_names));
          ("document_urls", PStr (join "; " doc_urls));
          ("detail_url", PStr detail_url) ]).

(** [[normalize_filing(f) for f in all_filings]] *)
Fixpoint normalize_all (all_filings : list (list (string * json)))
    : result (list raw_filing) :=
  match all_filings with
  | [] => Ok []
  | f :: fs =>
      let* r := normalize_filing f in
      let* rs := normalize_all fs in
      Ok (r :: rs)
  end.

End Fetch.

(** The fields of a filing of the API over which [normalize_filing]
    iterates, and the values over which a loop can run. *)
Definition list_fields : list string :=
  ["proceedings"; "filers"; "authors"; "lawfirms"; "documents"].

Definition iterable (v : json) : bool :=
  match v with
  | JArr _ | JStr _ | JObj _ => true
  | JNull | JBool _ | JNum _ => false
  end.

(** A lower case hexadecimal digit. *)
Definition is_hex (c : ascii) : bool :=
  let n := Text.code c in
  ((48 <=? n) && (n <=? 57) || (97 <=? n) && (n <=? 102))%N.

(** The fragments that exclude a name wherever they stand in it. *)
Definition excluded_fragments : list string :=
  [ "wireline competition bureau";
    "federal communications commission";
    "national telecommunications and information";
    "department of justice";
    "national association of regulatory" ].

(** The field [key] of [f] holds a string. *)
Definition has_str (f : raw_filing) (key : string) : Prop :=
  exists s, f !! key = Some (PStr s).

(** A raw filing with all the fields of the schema of a filing. *)
Definition complete (f : raw_filing) : Prop :=
  well_typed f
  /\ has_str f "submission_id" /\ has_str f "docket_number"
  /\ has_str f "submission_type" /\ has_str f "filing_status"
  /\ has_str f "detail_url".

(** ** Sample inputs of the further properties *)

(** A dictionary [grouped] with two keys that the deduplication pass
    merges. *)
Definition sample_groups : groups :=
  [ ("acme communications", [scenario_1]);
    ("beta networks", [off_topic]);
    ("acme communication", [scenario_2]) ].

(** A batch that the first loop passes over. *)
Definition rejected_batch : list raw_filing := [off_topic; fcc_filing].

(** The entry of the download queue for the document of [sample_company]. *)
Definition sample_entry : queue_entry :=
  {| url := "http://x/doc1";
     entry_company_name := "Acme Communications LLC";
     filename := "Acme_Communications_LLC_1.pdf" |}.

(** A filing as the API returns it, and the flat record made of it. *)
Definition api_filing : list (string * json) :=
  [ ("id_submission", JStr "1071234567");
    ("date_received", JStr "2024-01-15T12:00:00.000Z");
    ("submissiontype", JObj [("description", JStr "APPLICATION")]);
    ("proceedings",
     JArr [JObj [ ("name", JStr "INBOX-52.15");
                  ("description", JStr "VoIP Numbering Authorization") ]]);
    ("filers", JArr [JObj [("name", JStr "Acme Communications LLC")]]);
    ("documents",
     JArr [JObj [("src", JStr "https://www.fcc.gov/ecfs/document/1071234567/1")]]);
    ("filingstatus", JObj [("description", JStr "DISSEMINATED")]) ].

Definition api_record : raw_filing :=
  filing_of
    [ ("submission_id", PStr "1071234567");
      ("company_name", PStr "Acme Communications LLC");
      ("date_received", PStr "2024-01-15");
      ("submission_type", PStr "APPLICATION");
      ("docket_number", PStr "INBOX-52.15");
      ("proceeding_description", PStr "VoIP Numbering Authorization");
      ("bureau", PStr "");
      ("filing_status", PStr "DISSEMINATED");
      ("contact_attorney", PStr "");
      ("law_firm", PStr "");
      ("document_urls", PStr "https://www.fcc.gov/ecfs/document/1071234567/1");
      ("detail_url", PStr "https://www.fcc.gov/ecfs/filing/1071234567") ].

(** The sample filings hold no list and no dictionary where a text is
    read, so the text of such a value is left empty here. *)
Definition sample_repr (v : json) : string := "".

(** The two filings of the scenario as the fetch stage writes them. *)
Definition complete_cluster : list raw_filing :=
  [ fetched scenario_1 "101" "INBOX-52.15" "DISSEMINATED" "u101";
    fetched scenario_2 "104" "INBOX-52.15" "DISSEMINATED" "u104" ].

(** * Properties *)

(** ** The library models on known values *)

Example split_ws_ex : Text.split_ws "  alpha   networks " = ["alpha"; "networks"].
Proof. reflexivity. Qed.

Example split_on_ex : Text.split_on "; " "a; b;c; " = ["a"; "b;c"; ""].
Proof. reflexivity. Qed.

Example strip_ex : Text.strip "  a b  " = "a b".
Proof. reflexivity. Qed.

Example normalize_ex1 :
  normalize_company_name "Acme Communications LLC" = "acme communications".
Proof. vm_compute. reflexivity. Qed.

Example ratio_ex :
  Difflib.ratio "alpha network" "alphas networks" = (26 / 28)%float.
Proof. vm_compute. reflexivity. Qed.

Example sha1_abc :
  Uuid.hex (Uuid.sha1 (Uuid.encode "abc"))
  = "a9993e364706816aba3e25717850c26c9cd0d89d".
Proof. vm_compute. reflexivity. Qed.

Example uuid5_python_org :
  generate_company_id "python.org" = "886313e1-3b8a-5372-9b90-0c9aee199e5d".
Proof. vm_compute. reflexivity. Qed.

(** ** Exceptions and the order of strings *)

Lemma rbind_ok {A B} (m : result A) (k : A -> result B) (b : B) :
  rbind m k = Ok b -> exists a, m = Ok a /\ k a = Ok b.
Proof. destruct m as [a|e]; simpl; [eauto | discriminate]. Qed.

(** Split a hypothesis [let* x := m in k = Ok b] into [m = Ok x] and the
    rest of the computation. *)
Tactic Notation "bind_inv" hyp(H) "as" ident(x) ident(Hx) :=
  apply rbind_ok in H; destruct H as (x & Hx & H).

Lemma str_lt_irrefl a : Text.str_lt a a = false.
Proof.
  induction a as [|c a IH]; simpl; [done|].
  by rewrite N.ltb_irrefl.
Qed.

Lemma str_lt_asym a b : Text.str_lt a b = true -> Text.str_lt b a = false.
Proof.
  revert b; induction a as [|x a IH]; intros [|y b]; simpl; try done.
  destruct (N.ltb_spec (Text.code x) (Text.code y)) as [Hxy|Hxy].
  - intros _. destruct (N.ltb_spec (Text.code y) (Text.code x)); [lia|done].
  - destruct (N.ltb_spec (Text.code y) (Text.code x)); [done|]. apply IH.
Qed.

(** [>=] on strings is transitive. *)
Lemma str_ge_trans a b c :
  Text.str_lt a b = false -> Text.str_lt b c = false -> Text.str_lt a c = false.
Proof.
  revert b c; induction a as [|x a IH]; intros [|y b] [|z c]; simpl; try done.
  destruct (N.ltb_spec (Text.code x) (Text.code y)); [done|].
  destruct (N.ltb_spec (Text.code y) (Text.code z)); [done|].
  destruct (N.ltb_spec (Text.code y) (Text.code x));
    destruct (N.ltb_spec (Text.code z) (Text.code y));
    destruct (N.ltb_spec (Text.code x) (Text.code z));
    destruct (N.ltb_spec (Text.code z) (Text.code x));
    try done; try lia.
  apply IH.
Qed.

Lemma str_lt_empty_l b : Text.str_lt "" b = false -> b = "".
Proof. by destruct b. Qed.

Lemma py_lt_asym x y : py_lt x y = Ok true -> py_ge y x.
Proof.
  unfold py_ge.
  destruct x as [|a|a], y as [|b|b]; simpl; try discriminate; intros [= H].
  - by rewrite (str_lt_asym _ _ H).
  - f_equal. lia.
Qed.

Lemma py_ge_trans x y z : py_ge x y -> py_ge y z -> py_ge x z.
Proof.
  unfold py_ge.
  destruct x as [|a|a], y as [|b|b], z as [|c|c]; simpl; try discriminate;
    intros [= H1] [= H2]; f_equal.
  - by apply (str_ge_trans a b c).
  - lia.
Qed.

(** ** The sort *)

Section SortFacts.
Context {A : Type} (key : A -> pyval).

Lemma insert_sorted_perm x l r :
  insert_sorted key x l = Ok r -> r ≡ₚ x :: l.
Proof.
  revert r; induction l as [|y l IH]; intros r; simpl.
  - by intros [= <-].
  - intros H. bind_inv H as lt Hlt. destruct lt.
    + by injection H as <-.
    + bind_inv H as r' Hr'. injection H as <-.
      rewrite (IH _ Hr'). apply Permutation_swap.
Qed.

Lemma sort_into_perm l sorted r :
  sort_into key l sorted = Ok r -> r ≡ₚ sorted ++ l.
Proof.
  revert sorted r; induction l as [|x l IH]; intros sorted r; simpl.
  - intros [= <-]. by rewrite app_nil_r.
  - intros H. bind_inv H as s' Hs'.
    rewrite (IH _ _ H), (insert_sorted_perm _ _ _ Hs'). simpl.
    apply Permutation_middle.
Qed.

Lemma py_sort_perm reverse l r :
  py_sort key reverse l = Ok r -> r ≡ₚ l.
Proof.
  unfold py_sort. destruct reverse.
  - intros H. bind_inv H as s Hs. injection H as <-.
    apply sort_into_perm in Hs. simpl in Hs.
    by rewrite <- (Permutation_rev s), Hs, <- Permutation_rev.
  - intros H. by apply sort_into_perm in H.
Qed.

Lemma insert_sorted_sorted x l r :
  insert_sorted key x l = Ok r ->
  StronglySorted (key_le key) l -> StronglySorted (key_le key) r.
Proof.
  revert r; induction l as [|y l IH]; intros r; simpl.
  - intros [= <-] _. repeat constructor.
  - intros H Hs. bind_inv H as lt Hlt.
    apply StronglySorted_inv in Hs as [Hs Hy]. destruct lt.
    + injection H as <-. apply py_lt_asym in Hlt.
      constructor; [by constructor|].
      constructor; [done|].
      eapply Forall_impl; [exact Hy|].
      intros z Hz. unfold key_le in *. by eapply py_ge_trans.
    + bind_inv H as r' Hr'. injection H as <-.
      constructor; [by apply IH|].
      rewrite (insert_sorted_perm _ _ _ Hr'). by constructor.
Qed.

Lemma sort_into_sorted l sorted r :
  sort_into key l sorted = Ok r ->
  StronglySorted (key_le key) sorted -> StronglySorted (key_le key) r.
Proof.
  revert sorted r; induction l as [|x l IH]; intros sorted r; simpl.
  - by intros [= <-].
  - intros H Hs. bind_inv H as s' Hs'.
    eapply IH; [exact H|]. by eapply insert_sorted_sorted.
Qed.

Lemma StronglySorted_snoc (R : A -> A -> Prop) l x :
  StronglySorted R l -> Forall (fun y => R y x) l -> StronglySorted R (l ++ [x]).
Proof.
  induction 1 as [|y l Hs IH Hy]; simpl; intros Hx.
  - repeat constructor.
  - apply Forall_cons in Hx as [Hyx Hx].
    constructor; [by apply IH|].
    apply Forall_app; split; [done|by constructor].
Qed.

Lemma StronglySorted_rev (R : A -> A -> Prop) l :
  StronglySorted R l -> StronglySorted (flip R) (rev l).
Proof.
  induction 1 as [|y l Hs IH Hy]; simpl; [constructor|].
  apply StronglySorted_snoc; [done|].
  apply Forall_rev. exact Hy.
Qed.

(** With [reverse=True], no element is smaller than a later one. *)
Lemma py_sort_descending l r :
  py_sort key true l = Ok r ->
  StronglySorted (fun x y => py_ge (key x) (key y)) r.
Proof.
  unfold py_sort. intros H. bind_inv H as s Hs. injection H as <-.
  apply (StronglySorted_rev (key_le key)).
  eapply sort_into_sorted; [exact Hs|constructor].
Qed.

End SortFacts.

(** Sorting on a key that is the same string for all elements changes
    nothing. *)
Lemma py_sort_constant_key {A} (s : string) reverse (l : list A) :
  py_sort (fun _ => PStr s) reverse l = Ok l.
Proof.
  assert (Hins : forall (x : A) sorted,
             insert_sorted (fun _ => PStr s) x sorted = Ok (sorted ++ [x])).
  { intros x sorted; induction sorted as [|y sorted IH]; simpl; [done|].
    rewrite str_lt_irrefl. simpl. by rewrite IH. }
  assert (Hsort : forall (l sorted : list A),
             sort_into (fun _ => PStr s) l sorted = Ok (sorted ++ l)).
  { intros l'; induction l' as [|x l' IH]; intros sorted; simpl.
    - by rewrite app_nil_r.
    - rewrite Hins. simpl. rewrite IH. by rewrite <- app_assoc. }
  unfold py_sort. destruct reverse; rewrite Hsort; simpl; [|done].
  by rewrite rev_involutive.
Qed.

(** ** Validation against the schema *)

Lemma validate_filings_Forall2 rs fs :
  validate_filings rs = Some fs ->
  Forall2 (fun r f => validate_filing r = Some f) rs fs.
Proof.
  revert fs; induction rs as [|r rs IH]; intros fs; simpl.
  - intros [= <-]. constructor.
  - destruct (validate_filing r) as [f|] eqn:Hf; [|discriminate].
    destruct (validate_filings rs) as [fs'|]; [|discriminate].
    intros [= <-]. constructor; [done|by apply IH].
Qed.

Lemma validate_filing_fields r f :
  validate_filing r = Some f ->
  fr_filing_id r = PStr (filing_id f)
  /\ fr_date_received r = PStr (date_received f)
  /\ fr_docket_number r = PStr (docket_number f)
  /\ fr_submission_type r = PStr (submission_type f)
  /\ fr_filing_status r = PStr (filing_status f)
  /\ fr_detail_url r = PStr (detail_url f)
  /\ fr_document_urls r = document_urls f.
Proof.
  unfold validate_filing.
  destruct (fr_filing_id r), (fr_date_received r), (fr_docket_number r),
    (fr_submission_type r), (fr_filing_status r), (fr_detail_url r);
    try discriminate.
  by intros [= <-].
Qed.

Lemma validate_company_inl r c :
  validate_company r = inl c ->
  exists fs,
    validate_filings (cr_filings r) = Some fs
    /\ c = {| id := cr_id r; entity_name := cr_entity_name r;
              normalized_name := cr_normalized_name r;
              entity_type := cr_entity_type r;
              is_applicant := cr_is_applicant r;
              filing_count := cr_filing_count r;
              filings := fs; enrichment := cr_enrichment r |}.
Proof.
  unfold validate_company.
  destruct (company_errors r); [|discriminate].
  destruct (validate_filings (cr_filings r)) as [fs|]; [|discriminate].
  intros [= <-]. by exists fs.
Qed.

(** ** One cluster *)

Lemma process_filings_Forall2 fs rs :
  process_filings fs = Ok rs ->
  Forall2 (fun f r => process_filing f = Ok r) fs rs.
Proof.
  revert rs; induction fs as [|f fs IH]; intros rs; simpl.
  - intros [= <-]. constructor.
  - intros H. bind_inv H as r Hr. bind_inv H as rs' Hrs. injection H as <-.
    constructor; [done|by apply IH].
Qed.

Lemma any_application_true fs :
  any_application fs = Ok true ->
  exists f, f ∈ fs /\ is_application_type f = Ok true.
Proof.
  induction fs as [|f fs IH]; simpl; [discriminate|].
  intros H. bind_inv H as b Hb. destruct b.
  - exists f. split; [left|done].
  - destruct (IH H) as (g & Hg & Happ). exists g. split; [by right|done].
Qed.

(** What an emitted company is made of. *)
Lemma assemble_emitted name fs c :
  assemble name fs = Ok (Emitted c) ->
  exists primary processed sorted vfs,
    primary_name_of name (map (fun f => get_or f "company_name" (PStr "")) fs)
      = Ok primary
    /\ is_likely_individual primary = false
    /\ any_application fs = Ok true
    /\ process_filings fs = Ok processed
    /\ py_sort fr_date_received true processed = Ok sorted
    /\ validate_filings sorted = Some vfs
    /\ c = {| id := generate_company_id name; entity_name := primary;
              normalized_name := name; entity_type := "Company";
              is_applicant := true;
              filing_count := Z.of_nat (length sorted);
              filings := vfs; enrichment := ∅ |}.
Proof.
  unfold assemble. intros H.
  bind_inv H as primary Hprimary. bind_inv H as has_app Happ.
  bind_inv H as processed Hprocessed. bind_inv H as sorted Hsorted.
  destruct has_app; simpl in H; [|discriminate].
  destruct (is_likely_individual primary) eqn:Hind; simpl in H; [discriminate|].
  match type of H with
  | match validate_company ?r with _ => _ end = _ =>
      destruct (validate_company r) as [v|e] eqn:Hv; [|discriminate]
  end.
  injection H as <-.
  apply validate_company_inl in Hv as (vfs & Hvfs & ->). simpl in *.
  by exists primary, processed, sorted, vfs.
Qed.

Lemma assemble_invalid name fs name' errs :
  assemble name fs = Ok (Invalid name' errs) -> name' = name.
Proof.
  unfold assemble. intros H.
  bind_inv H as primary Hprimary. bind_inv H as has_app Happ.
  bind_inv H as processed Hprocessed. bind_inv H as sorted Hsorted.
  destruct (has_app && negb (is_likely_individual primary)); [|discriminate].
  match type of H with
  | match validate_company ?r with _ => _ end = _ =>
      destruct (validate_company r) as [v|e]; [discriminate|]
  end.
  by injection H as <- _.
Qed.

(** ** The whole run *)

Section RunFacts.
Variable error_text : list error_loc -> string.

Lemma assemble_all_inv grouped cs0 n0 log0 cs n log :
  assemble_all error_text grouped (cs0, n0, log0) = Ok (cs, n, log) ->
  exists new_cs new_log,
    cs = cs0 ++ new_cs /\ log = log0 ++ new_log
    /\ n = (n0 + Z.of_nat (length new_log))%Z
    /\ Forall (from_cluster grouped) new_cs
    /\ Forall (from_invalid error_text grouped) new_log.
Proof.
  revert cs0 n0 log0.
  induction grouped as [|[name fs] grouped IH]; intros cs0 n0 log0; simpl.
  - intros [= <- <- <-]. exists [], []. rewrite !app_nil_r. simpl.
    repeat split; [lia|constructor|constructor].
  - intros H. bind_inv H as o Ho.
    assert (Hweak_c : forall l, Forall (from_cluster grouped) l ->
                            Forall (from_cluster ((name, fs) :: grouped)) l).
    { intros l Hl. eapply Forall_impl; [exact Hl|].
      intros c (nm & fs' & Hin & Hc).
      exists nm, fs'. split; [by right|done]. }
    assert (Hweak_e : forall l, Forall (from_invalid error_text grouped) l ->
                            Forall (from_invalid error_text ((name, fs) :: grouped)) l).
    { intros l Hl. eapply Forall_impl; [exact Hl|].
      intros e (fs' & errs & Hin & He).
      exists fs', errs. split; [by right|done]. }
    destruct o as [c|name' errs|].
    + apply IH in H as (new_cs & new_log & -> & -> & -> & Hcs & Hlog).
      exists (c :: new_cs), new_log. rewrite <- app_assoc. simpl.
      repeat split; [|by apply Hweak_e].
      constructor; [|by apply Hweak_c]. exists name, fs. split; [left|done].
    + apply IH in H as (new_cs & new_log & -> & -> & -> & Hcs & Hlog).
      pose proof (assemble_invalid _ _ _ _ Ho) as ->.
      exists new_cs, ({| err_name := name; err_error := error_text errs |}
                        :: new_log).
      rewrite <- app_assoc. simpl.
      repeat split; [lia|by apply Hweak_c|].
      constructor; [|by apply Hweak_e]. exists fs, errs. simpl.
      split; [left|done].
    + apply IH in H as (new_cs & new_log & -> & -> & -> & Hcs & Hlog).
      exists new_cs, new_log. repeat split; [by apply Hweak_c|by apply Hweak_e].
Qed.

Lemma structure_data_inv w batch out w' :
  structure_data error_text w batch = Ok (out, w') ->
  exists grouped error_log,
    group_filings batch [] = Ok grouped
    /\ Forall (from_cluster (deduplicate grouped)) out
    /\ Forall (from_invalid error_text (deduplicate grouped)) error_log
    /\ w' = {| now := now w;
               val_file :=
                 Stored (JArr (load_history w
                               ++ [validation_stats w out
                                     (Z.of_nat (length error_log)) error_log]))
            |}.
Proof.
  unfold structure_data. intros H.
  bind_inv H as grouped Hgrouped. bind_inv H as st Hst.
  destruct st as [[cs n] log].
  rewrite py_sort_constant_key in H. simpl in H. injection H as <- <-.
  apply assemble_all_inv in Hst as (new_cs & new_log & -> & -> & -> & Hcs & Hlog).
  simpl. exists grouped, new_log. by repeat split.
Qed.

(** The last loop visits every cluster once, in the order of the
    dictionary. *)
Lemma assemble_all_exact grouped cs0 n0 log0 cs n log :
  assemble_all error_text grouped (cs0, n0, log0) = Ok (cs, n, log) ->
  cs = cs0 ++ companies_of grouped
  /\ log = log0 ++ error_log_of error_text grouped
  /\ n = (n0 + Z.of_nat (length (error_log_of error_text grouped)))%Z.
Proof.
  unfold companies_of, error_log_of. revert cs0 n0 log0.
  induction grouped as [|[name fs] grouped IH]; intros cs0 n0 log0.
  - simpl. intros [= <- <- <-]. rewrite !app_nil_r. repeat split. lia.
  - cbn [assemble_all map concat]. unfold emitted_of at 1, error_of at 1 3.
    cbn [fst snd]. intros H. bind_inv H as o Ho. rewrite Ho.
    destruct o as [c|name' errs|].
    + apply IH in H as (-> & -> & ->). rewrite <- app_assoc. by repeat split.
    + apply IH in H as (-> & -> & ->).
      pose proof (assemble_invalid _ _ _ _ Ho) as ->.
      rewrite <- app_assoc. cbn [app length]. repeat split. lia.
    + apply IH in H as (-> & -> & ->). by repeat split.
Qed.

Lemma error_log_of_from_invalid grouped :
  Forall (from_invalid error_text grouped) (error_log_of error_text grouped).
Proof.
  unfold error_log_of.
  induction grouped as [|[name fs] grouped IH]; [constructor|].
  cbn [map concat]. apply Forall_app. split.
  - unfold error_of. cbn [fst snd].
    destruct (assemble name fs) as [[c|name' errs|]|] eqn:Ho;
      try constructor; [|constructor].
    pose proof (assemble_invalid _ _ _ _ Ho) as ->.
    exists fs, errs. simpl. split; [left|done].
  - eapply Forall_impl; [exact IH|].
    intros e (fs' & errs & Hin & He). exists fs', errs. split; [by right|done].
Qed.

End RunFacts.

(** ** The emitted companies *)

Lemma get_str_get_or (f : raw_filing) key s d :
  get f key = PStr s -> get_or f key d = PStr s.
Proof.
  unfold get, get_or. destruct (f !! key) as [v|]; simpl; [done|discriminate].
Qed.

Lemma Forall2_elem_l {A B} (P : A -> B -> Prop) l k x :
  Forall2 P l k -> x ∈ l -> exists y, y ∈ k /\ P x y.
Proof.
  intros HF Hx. apply list_elem_of_lookup in Hx as [i Hi].
  destruct (Forall2_lookup_l _ _ _ _ _ HF Hi) as (y & Hy & HP).
  exists y. split; [|done]. apply list_elem_of_lookup. by exists i.
Qed.

Lemma process_filing_fields f r :
  process_filing f = Ok r ->
  fr_submission_type r = get f "submission_type"
  /\ fr_date_received r = get f "date_received".
Proof.
  unfold process_filing. intros H. bind_inv H as urls Hurls.
  by injection H as <-.
Qed.

(** Claim C5.  The identifier of an emitted company is
    [generate_company_id] of its normalized name and of nothing else: two
    companies with the same normalized name, emitted by any two runs (other
    batches, other clocks, other states of the history file, other error
    texts), carry the same identifier. *)
Theorem company_id_deterministic
    (text1 text2 : list error_loc -> string) (w1 w2 : World)
    (batch1 batch2 : list raw_filing) out1 out2 w1' w2' (c1 c2 : Company) :
  structure_data text1 w1 batch1 = Ok (out1, w1') ->
  structure_data text2 w2 batch2 = Ok (out2, w2') ->
  c1 ∈ out1 -> c2 ∈ out2 ->
  normalized_name c1 = normalized_name c2 ->
  id c1 = generate_company_id (normalized_name c1) /\ id c1 = id c2.
Proof.
  intros H1 H2 Hc1 Hc2 Hname.
  assert (Hid : forall text w batch out w' c,
             structure_data text w batch = Ok (out, w') -> c ∈ out ->
             id c = generate_company_id (normalized_name c)).
  { clear. intros text w batch out w' c H Hc.
    apply structure_data_inv in H as (grouped & _ & _ & Hout & _).
    rewrite Forall_forall in Hout.
    destruct (Hout c Hc) as (name & fs & _ & Hemit).
    apply assemble_emitted in Hemit
      as (primary & processed & sorted & vfs & _ & _ & _ & _ & _ & _ & ->).
    done. }
  split; [exact (Hid _ _ _ _ _ _ H1 Hc1)|].
  rewrite (Hid _ _ _ _ _ _ H1 Hc1), (Hid _ _ _ _ _ _ H2 Hc2).
  by rewrite Hname.
Qed.

(** Claim C6.  An emitted company has a filing whose uppercased
    [submission_type] contains APPLICATION, REQUEST or PETITION, and its
    name is not classified as that of an individual; in particular its
    filings are not all of type COMMENT. *)
Theorem emission_gate (text : list error_loc -> string) (w : World)
    (batch : list raw_filing) out w' (c : Company) :
  structure_data text w batch = Ok (out, w') ->
  c ∈ out ->
  (exists fl, fl ∈ filings c
     /\ existsb (fun t => Text.contains t (Text.upper (submission_type fl)))
          ["APPLICATION"; "REQUEST"; "PETITION"] = true)
  /\ is_likely_individual (entity_name c) = false
  /\ is_applicant c = true /\ entity_type c = "Company"
  /\ ~ Forall (fun fl => submission_type fl = "COMMENT") (filings c).
Proof.
  intros H Hc.
  apply structure_data_inv in H as (grouped & _ & _ & Hout & _).
  rewrite Forall_forall in Hout.
  destruct (Hout c Hc) as (name & fs & _ & Hemit).
  apply assemble_emitted in Hemit
    as (primary & processed & sorted & vfs & _ & Hind & Happ & Hproc & Hsort
        & Hval & ->).
  simpl.
  assert (Hex : exists fl, fl ∈ vfs
     /\ existsb (fun t => Text.contains t (Text.upper (submission_type fl)))
          ["APPLICATION"; "REQUEST"; "PETITION"] = true).
  { apply any_application_true in Happ as (f & Hf & Happ).
    apply process_filings_Forall2 in Hproc.
    destruct (Forall2_elem_l _ _ _ _ Hproc Hf) as (r & Hr & Hfr).
    apply py_sort_perm in Hsort. rewrite <- Hsort in Hr.
    apply validate_filings_Forall2 in Hval.
    destruct (Forall2_elem_l _ _ _ _ Hval Hr) as (fl & Hfl & Hrfl).
    exists fl. split; [done|].
    apply validate_filing_fields in Hrfl as (_ & _ & _ & Hty & _).
    apply process_filing_fields in Hfr as [Hst _]. rewrite Hst in Hty.
    unfold is_application_type in Happ.
    rewrite (get_str_get_or _ _ _ (PStr "") Hty) in Happ. simpl in Happ.
    by injection Happ. }
  repeat split; try done.
  intros Hall. destruct Hex as (fl & Hfl & Hw).
  rewrite Forall_forall in Hall. rewrite (Hall fl Hfl) in Hw.
  vm_compute in Hw. discriminate.
Qed.

(** Claim C7.  The [filing_count] of an emitted company is the length of
    its list of filings. *)
Theorem filing_count_is_length (text : list error_loc -> string) (w : World)
    (batch : list raw_filing) out w' (c : Company) :
  structure_data text w batch = Ok (out, w') ->
  c ∈ out ->
  filing_count c = Z.of_nat (length (filings c)).
Proof.
  intros H Hc.
  apply structure_data_inv in H as (grouped & _ & _ & Hout & _).
  rewrite Forall_forall in Hout.
  destruct (Hout c Hc) as (name & fs & _ & Hemit).
  apply assemble_emitted in Hemit
    as (primary & processed & sorted & vfs & _ & _ & _ & _ & _ & Hval & ->).
  simpl. apply validate_filings_Forall2, Forall2_length in Hval.
  by rewrite Hval.
Qed.

Lemma StronglySorted_Forall2 {A B} (R : A -> A -> Prop) (R' : B -> B -> Prop)
    (Q : A -> B -> Prop) l k :
  (forall x1 x2 y1 y2, Q x1 y1 -> Q x2 y2 -> R x1 x2 -> R' y1 y2) ->
  Forall2 Q l k -> StronglySorted R l -> StronglySorted R' k.
Proof.
  intros HQ HF. induction HF as [|x y l k Hxy HF IH]; intros Hs.
  - constructor.
  - apply StronglySorted_inv in Hs as [Hs Hx].
    constructor; [by apply IH|].
    rewrite Forall_forall in Hx. apply Forall_forall. intros y' Hy'.
    destruct (Forall2_elem_l (flip Q) k l y') as (x' & Hx' & HQ').
    { by apply Forall2_flip. } { done. }
    eapply HQ; [exact Hxy|exact HQ'|by apply Hx].
Qed.

(** Claim C8.  The filings of an emitted company are in descending order
    of [date_received], strings being compared by code points; a filing
    without a date (the empty string) is followed only by filings without
    a date, so it stands after every filing that has one. *)
Theorem filings_sorted_by_date (text : list error_loc -> string) (w : World)
    (batch : list raw_filing) out w' (c : Company) :
  structure_data text w batch = Ok (out, w') ->
  c ∈ out ->
  dates_descending (filings c)
  /\ forall before fl after,
       filings c = before ++ fl :: after ->
       date_received fl = "" ->
       Forall (fun later => date_received later = "") after.
Proof.
  intros H Hc.
  apply structure_data_inv in H as (grouped & _ & _ & Hout & _).
  rewrite Forall_forall in Hout.
  destruct (Hout c Hc) as (name & fs & _ & Hemit).
  apply assemble_emitted in Hemit
    as (primary & processed & sorted & vfs & _ & _ & _ & _ & Hsort & Hval & ->).
  simpl.
  assert (Hdesc : dates_descending vfs).
  { apply py_sort_descending in Hsort.
    apply validate_filings_Forall2 in Hval.
    eapply StronglySorted_Forall2; [|exact Hval|exact Hsort].
    intros r1 r2 f1 f2 Hf1 Hf2.
    apply validate_filing_fields in Hf1 as (_ & -> & _).
    apply validate_filing_fields in Hf2 as (_ & -> & _).
    unfold py_ge. simpl. by intros [= ->]. }
  split; [done|].
  intros before fl after -> Hempty.
  apply StronglySorted_app_1_r, StronglySorted_inv in Hdesc as [_ Hfl].
  eapply Forall_impl; [exact Hfl|].
  intros later. rewrite Hempty. apply str_lt_empty_l.
Qed.

(** ** The validation report *)

(** Claim C9.  A run that returns leaves in the history file the history
    that it found, followed by one record with the time stamp, the total,
    the number of valid records (the companies returned: one for each
    cluster of the deduplicated dictionary that is emitted, in the order of
    the dictionary), the number of invalid ones (the clusters that fail the
    validation) and the first five entries at most of the error log.  The
    error log has one entry for each cluster that fails the validation, in
    the order of the dictionary, with the key of the cluster and the text of
    its error.  The history found is empty when the file is missing or
    malformed, the stored list when the file holds a list, and the stored
    value alone when it holds another value; the run returns the same
    companies whatever the state of the file. *)
Theorem validation_report (text : list error_loc -> string) (w : World)
    (batch : list raw_filing) out w' :
  structure_data text w batch = Ok (out, w') ->
  exists grouped : groups,
    group_filings batch [] = Ok grouped
    /\ out = companies_of (deduplicate grouped)
    /\ (let error_log := error_log_of text (deduplicate grouped) in
        val_file w' =
          Stored (JArr (load_history w ++
            [JObj [ ("timestamp", JStr (now w));
                    ("total_processed",
                     JNum (Z.of_nat (length out)
                           + Z.of_nat (length error_log)));
                    ("valid_records", JNum (Z.of_nat (length out)));
                    ("invalid_records", JNum (Z.of_nat (length error_log)));
                    ("error_samples",
                     JArr (map sample_json (take 5 error_log))) ]]))
        /\ (length (take 5 error_log) <= 5)%nat
        /\ Forall (from_invalid text (deduplicate grouped)) error_log)
    /\ (val_file w = Missing \/ val_file w = Malformed -> load_history w = [])
    /\ (forall content,
          val_file w = Stored (JArr content) -> load_history w = content)
    /\ (forall content,
          val_file w = Stored content -> (forall l, content <> JArr l) ->
          load_history w = [content])
    /\ (forall w2, exists w2', structure_data text w2 batch = Ok (out, w2')).
Proof.
  intros H. unfold structure_data in H.
  bind_inv H as grouped Hgrouped. bind_inv H as st Hst.
  destruct st as [[cs n] log].
  rewrite py_sort_constant_key in H. cbn [rbind] in H. injection H as <- <-.
  pose proof (assemble_all_exact _ _ _ _ _ _ _ _ Hst) as (Hcs & Hlog & Hn).
  simpl in Hcs, Hlog, Hn. subst cs log n.
  exists grouped. split; [done|]. split; [done|]. split.
  { cbn zeta. split; [done|]. split; [rewrite length_take; lia|].
    apply error_log_of_from_invalid. }
  unfold load_history.
  split; [by intros [-> | ->]|].
  split; [by intros content ->|].
  split.
  { intros content -> Hother. destruct content; try done.
    by destruct (Hother l). }
  intros w2. unfold structure_data. rewrite Hgrouped. cbn [rbind].
  rewrite Hst. cbn [rbind]. rewrite py_sort_constant_key. simpl. eauto.
Qed.

(** ** The topic filter *)

Lemma group_filings_not_ipes before f after grouped :
  is_ipes f = Ok false ->
  group_filings (before ++ f :: after) grouped
  = group_filings (before ++ after) grouped.
Proof.
  intros Hf. revert grouped.
  induction before as [|g before IH]; intros grouped; simpl.
  - by rewrite Hf.
  - destruct (is_ipes g) as [[]|]; simpl; [|done|done].
    destruct (py_strip (get_or g "company_name" (PStr ""))) as [name|];
      simpl; [|done].
    destruct (Text.is_empty name || should_exclude name); [done|].
    by destruct (negb (Text.is_empty (normalize_company_name name))).
Qed.

(** Claim C10.  A raw filing whose lowercased [proceeding_description]
    contains neither "voip" nor "52.15" and whose lowercased
    [docket_number] does not contain "inbox-52.15" is dropped before the
    grouping: the run on a batch with such a filing is the run on the batch
    without it, with the same companies and the same report. *)
Theorem topic_filter_drops (text : list error_loc -> string) (w : World)
    (before after : list raw_filing) (f : raw_filing)
    (proc_desc docket : string) :
  get_or f "proceeding_description" (PStr "") = PStr proc_desc ->
  get_or f "docket_number" (PStr "") = PStr docket ->
  Text.contains "voip" (Text.lower proc_desc) = false ->
  Text.contains "52.15" (Text.lower proc_desc) = false ->
  Text.contains "inbox-52.15" (Text.lower docket) = false ->
  structure_data text w (before ++ f :: after)
  = structure_data text w (before ++ after).
Proof.
  intros Hpd Hdk H1 H2 H3.
  unfold structure_data. rewrite group_filings_not_ipes; [done|].
  unfold is_ipes. rewrite Hpd, Hdk. simpl. by rewrite H1, H2, H3.
Qed.

(** ** The end-to-end scenario *)

(** The scenario of claim C1 as the specification gives it: the two
    filings name no proceeding, the topic filter drops both and no company
    is emitted. *)
Lemma scenario_emits_nothing :
  exists w',
    structure_data sample_text sample_world [scenario_1; scenario_2]
    = Ok ([], w').
Proof. eexists. vm_compute. reflexivity. Qed.

(** Claim C1, amended.  When the two filings of the scenario come with an
    IPES proceeding and with strings for [submission_id], [docket_number],
    [filing_status] and [detail_url], one company is emitted, with the
    longer name, both filings with the newer first, the type Company and
    the applicant flag. *)
Theorem scenario_emits_one_company (text : list error_loc -> string)
    (w : World) (sid1 sid2 docket1 docket2 status1 status2 url1 url2 : string) :
  exists c w',
    structure_data text w
      [ fetched scenario_1 sid1 docket1 status1 url1;
        fetched scenario_2 sid2 docket2 status2 url2 ]
    = Ok ([c], w')
    /\ entity_name c = "Acme Communications LLC"
    /\ filing_count c = 2%Z
    /\ map date_received (filings c) = ["2023-06-01"; "2023-05-01"]
    /\ map filing_id (filings c) = [sid2; sid1]
    /\ entity_type c = "Company"
    /\ is_applicant c = true.
Proof.
  eexists _, _. split; [vm_compute; reflexivity|].
  simpl. by repeat split.
Qed.

(** ** The token rule of the merge *)







(** ** Missing fields *)

(** Claim C4 fails on two filings of one company without [date_received]:
    the key of the sort is [None] for both, and comparing them raises. *)
Theorem missing_date_raises (text : list error_loc -> string) (w : World) :
  structure_data text w [undated; undated] = Raise TypeError.
Proof. vm_compute. reflexivity. Qed.

(** A single such filing does not raise: it fails the validation and is
    counted. *)
Lemma missing_date_single (text : list error_loc -> string) (w : World) :
  exists w', structure_data text w [undated] = Ok ([], w').
Proof. eexists. vm_compute. reflexivity. Qed.

(** ** The normalizer *)

Lemma str_Forall_impl (P Q : ascii -> Prop) s :
  (forall c, P c -> Q c) -> str_Forall P s -> str_Forall Q s.
Proof. intros HPQ. induction s; simpl; [done|]. intros [? ?]. auto. Qed.

Lemma str_Forall_app P s1 s2 :
  str_Forall P s1 -> str_Forall P s2 -> str_Forall P (s1 +:+ s2).
Proof. induction s1; simpl; [done|]. intros [? ?] ?. auto. Qed.

Lemma str_Forall_map P f s :
  (forall c, P (f c)) -> str_Forall P (Text.map_str f s).
Proof. intros Hf. induction s; simpl; auto. Qed.

Lemma str_Forall_lstrip P s : str_Forall P s -> str_Forall P (Text.lstrip s).
Proof.
  induction s as [|c s IH]; simpl; [done|]. intros [Hc Hs].
  destruct (Text.is_space c); simpl; auto.
Qed.

Lemma str_Forall_rstrip P s : str_Forall P s -> str_Forall P (Text.rstrip s).
Proof.
  induction s as [|c s IH]; simpl; [done|]. intros [Hc Hs].
  specialize (IH Hs). destruct (Text.rstrip s); simpl in *.
  - destruct (Text.is_space c); simpl; auto.
  - auto.
Qed.

Lemma str_Forall_strip P s : str_Forall P s -> str_Forall P (Text.strip s).
Proof. intros. by apply str_Forall_rstrip, str_Forall_lstrip. Qed.

Lemma str_Forall_collapse P b s :
  P " "%char -> str_Forall P s -> str_Forall P (collapse b s).
Proof.
  intros Hsp. revert b. induction s as [|c s IH]; intros b; simpl; [done|].
  intros [Hc Hs]. destruct (Text.is_space c); [destruct b|]; simpl; auto.
Qed.

Lemma lower_char_idem c : Text.lower_char (Text.lower_char c) = Text.lower_char c.
Proof. destruct c as [[] [] [] [] [] [] [] []]; reflexivity. Qed.

Lemma lower_fixed_id s : str_Forall lower_fixed s -> Text.lower s = s.
Proof.
  unfold Text.lower. induction s as [|c s IH]; simpl; [done|].
  intros [Hc Hs]. by rewrite Hc, IH.
Qed.

(** *** Trimming *)

Lemma no_lead_lstrip s : no_lead (Text.lstrip s).
Proof.
  induction s as [|c s IH]; simpl; [done|].
  destruct (Text.is_space c) eqn:Hc; [done|]. simpl. exact Hc.
Qed.

Lemma no_lead_rstrip s : no_lead s -> no_lead (Text.rstrip s).
Proof.
  destruct s as [|c s]; simpl; [done|]. intros Hc.
  destruct (Text.rstrip s); [rewrite Hc|]; done.
Qed.

Lemma lstrip_no_lead s : no_lead s -> Text.lstrip s = s.
Proof. destruct s as [|c s]; simpl; [done|]. by intros ->. Qed.

Lemma rstrip_idem s : Text.rstrip (Text.rstrip s) = Text.rstrip s.
Proof.
  induction s as [|c s IH]; simpl; [done|].
  destruct (Text.rstrip s) as [|d r] eqn:Hr.
  - destruct (Text.is_space c) eqn:Hc; simpl; [done|]. by rewrite Hc.
  - simpl in *. by rewrite IH.
Qed.

Lemma strip_strip s : Text.strip (Text.strip s) = Text.strip s.
Proof.
  unfold Text.strip.
  rewrite (lstrip_no_lead (Text.rstrip (Text.lstrip s))).
  - apply rstrip_idem.
  - apply no_lead_rstrip, no_lead_lstrip.
Qed.

(** *** Runs of white space *)

Lemma collapsed_no_lead b s : no_lead s -> collapsed b s -> collapsed false s.
Proof. destruct s as [|c s]; simpl; [done|]. by intros ->. Qed.

Lemma collapsed_collapse s :
  collapsed false (collapse false s)
  /\ collapsed false (collapse true s) /\ no_lead (collapse true s).
Proof.
  induction s as [|c s (IH1 & IH2 & IH3)]; simpl; [done|].
  destruct (Text.is_space c) eqn:Hc; simpl.
  - split; [|done]. change (Text.is_space " ") with true. cbv iota.
    repeat split. by destruct (collapse true s); simpl in *; [|rewrite IH3 in *].
  - rewrite Hc. done.
Qed.

Lemma collapse_collapsed s :
  (collapsed false s -> collapse false s = s)
  /\ (collapsed true s -> collapse true s = s).
Proof.
  induction s as [|c s [IH1 IH2]]; simpl; [done|].
  destruct (Text.is_space c) eqn:Hc.
  - split; [|by intros (_ & ? & _)].
    intros (-> & _ & Hs). by rewrite IH2.
  - split; intros Hs; by rewrite IH1.
Qed.

Lemma collapsed_lstrip b s : collapsed b s -> collapsed false (Text.lstrip s).
Proof.
  revert b; induction s as [|c s IH]; intros b; simpl; [done|].
  destruct (Text.is_space c) eqn:Hc.
  - intros (_ & _ & Hs). by eapply IH.
  - simpl. by rewrite Hc.
Qed.

Lemma collapsed_rstrip b s : collapsed b s -> collapsed b (Text.rstrip s).
Proof.
  revert b; induction s as [|c s IH]; intros b; simpl; [done|].
  destruct (Text.is_space c) eqn:Hc.
  - intros (-> & -> & Hs). apply IH in Hs.
    destruct (Text.rstrip s); simpl; [done|]. simpl in Hs. done.
  - intros Hs. apply IH in Hs.
    destruct (Text.rstrip s); simpl; rewrite Hc; done.
Qed.

Lemma collapsed_strip b s : collapsed b s -> collapsed false (Text.strip s).
Proof. intros H. by eapply collapsed_rstrip, collapsed_lstrip. Qed.

(** *** Substitution *)

Lemma sub_from_no_match icase r repl prev s :
  search_from icase r prev s = false ->
  sub_from icase r repl O prev s = s.
Proof.
  revert prev; induction s as [|c s IH]; intros prev; simpl; [done|].
  destruct (match_here icase r prev (String c s)); [discriminate|].
  intros H. by rewrite IH.
Qed.

Lemma sub_no_match icase r repl s :
  search icase r s = false -> sub icase r repl s = s.
Proof. apply sub_from_no_match. Qed.

Lemma str_Forall_sub_from P icase r repl skip prev s :
  str_Forall P repl -> str_Forall P s ->
  str_Forall P (sub_from icase r repl skip prev s).
Proof.
  intros Hrepl. revert skip prev.
  induction s as [|c s IH]; intros skip prev; simpl; [done|].
  intros [Hc Hs]. destruct skip as [|k]; [|by apply IH].
  destruct (match_here icase r prev (String c s)) as [[|k]|].
  - simpl. split; [done|by apply IH].
  - apply str_Forall_app; [done|by apply IH].
  - simpl. split; [done|by apply IH].
Qed.

Lemma str_Forall_suffixes P l s :
  str_Forall P s ->
  str_Forall P (fold_left (fun nm suffix => sub true suffix "" nm) l s).
Proof.
  revert s; induction l as [|r l IH]; intros s Hs; simpl; [done|].
  apply IH. by apply str_Forall_sub_from.
Qed.

Lemma suffixes_no_match l s :
  Forall (fun suffix => search true suffix s = false) l ->
  fold_left (fun nm suffix => sub true suffix "" nm) l s = s.
Proof.
  induction 1 as [|r l Hr Hl IH]; simpl; [done|].
  by rewrite (sub_no_match _ _ _ _ Hr).
Qed.

(** The substitution of [[^\w\s]] replaces the characters one by one. *)
Lemma sub_punct s : sub false re_punct " " s = Text.map_str depunct s.
Proof.
  unfold sub. generalize (@None ascii) as prev.
  induction s as [|c s IH]; intros prev; simpl; [done|].
  unfold match_here, depunct. simpl.
  destruct (negb (Text.is_word c || Text.is_space c)); simpl; by rewrite IH.
Qed.

Lemma depunct_word_or_space c : word_or_space (depunct c).
Proof.
  unfold word_or_space, depunct.
  destruct (Text.is_word c || Text.is_space c) eqn:H; simpl; done.
Qed.

Lemma depunct_id s :
  str_Forall word_or_space s -> Text.map_str depunct s = s.
Proof.
  induction s as [|c s IH]; simpl; [done|]. intros [Hc Hs].
  unfold depunct at 1. unfold word_or_space in Hc. rewrite Hc. simpl.
  by rewrite IH.
Qed.

Lemma star_match_span prev s n :
  star_match Text.is_space prev s n (fun _ _ m => Some m) = Some (n + span s)%nat.
Proof.
  revert prev n; induction s as [|c s IH]; intros prev n; simpl.
  - f_equal. lia.
  - destruct (Text.is_space c); [|f_equal; lia].
    rewrite IH. f_equal. lia.
Qed.

Lemma match_here_spaces prev s :
  match_here false re_spaces prev s =
  match s with
  | String c s' => if Text.is_space c then Some (S (span s')) else None
  | EmptyString => None
  end.
Proof.
  unfold match_here, re_spaces, Plus. simpl.
  destruct s as [|c s]; [done|].
  destruct (Text.is_space c); [|done].
  by rewrite star_match_span.
Qed.

(** The substitution of [\s+] replaces every run by one space. *)
Lemma sub_from_spaces s :
  forall prev,
    sub_from false re_spaces " " O prev s = collapse false s
    /\ sub_from false re_spaces " " (span s) prev s = collapse true s.
Proof.
  induction s as [|c s IH]; intros prev; [done|].
  destruct (IH (Some c)) as [IH1 IH2].
  destruct (Text.is_space c) eqn:Hc; split.
  - cbn [sub_from collapse]. by rewrite match_here_spaces, Hc, IH2.
  - cbn [span]. rewrite Hc. cbn [sub_from collapse]. by rewrite Hc.
  - cbn [sub_from collapse]. by rewrite match_here_spaces, Hc, IH1.
  - cbn [span]. rewrite Hc. cbn [sub_from collapse].
    by rewrite match_here_spaces, Hc, IH1.
Qed.

Lemma sub_spaces s : sub false re_spaces " " s = collapse false s.
Proof. apply sub_from_spaces. Qed.

(** *** The shape of a normalized key *)

Lemma str_Forall_map_impl (P Q : ascii -> Prop) f s :
  (forall c, P c -> Q (f c)) -> str_Forall P s -> str_Forall Q (Text.map_str f s).
Proof. intros Hf. induction s; simpl; [done|]. intros [? ?]. auto. Qed.

Lemma normalize_shape s :
  let t := normalize_company_name s in
  str_Forall lower_fixed t /\ str_Forall word_or_space t
  /\ collapsed false t /\ Text.strip t = t.
Proof.
  unfold normalize_company_name.
  destruct (Text.is_empty s); [done|]. cbv zeta.
  rewrite sub_punct, sub_spaces.
  repeat split.
  - apply str_Forall_strip, str_Forall_collapse; [reflexivity|].
    apply str_Forall_map_impl with (P := lower_fixed).
    { intros c Hc. unfold depunct.
      by destruct (negb (Text.is_word c || Text.is_space c)). }
    apply str_Forall_suffixes, str_Forall_strip.
    apply str_Forall_map. intros c. apply lower_char_idem.
  - apply str_Forall_strip, str_Forall_collapse; [reflexivity|].
    apply str_Forall_map. apply depunct_word_or_space.
  - eapply collapsed_strip. apply collapsed_collapse.
  - apply strip_strip.
Qed.

(** Claim C2 as stated fails, the normalizer is not idempotent: a marker
    [dba] that is followed by a comma is kept by the first pass, the comma
    becomes a space, and the second pass cuts the key at the marker. *)
Lemma normalize_not_idempotent :
  normalize_company_name "Acme dba, Foo" = "acme dba foo"
  /\ normalize_company_name (normalize_company_name "Acme dba, Foo") = "acme"
  /\ normalize_company_name (normalize_company_name "Acme dba, Foo")
     <> normalize_company_name "Acme dba, Foo".
Proof.
  split; [vm_compute; reflexivity|].
  split; [vm_compute; reflexivity|].
  vm_compute. discriminate.
Qed.

(** Claim C2, amended.  Normalizing a normalized key gives the key back
    when none of the four suffix patterns matches in the key, that is when
    the key has no business suffix as a word of its own and no marker
    [dba] or [doing business as] followed by white space. *)
Theorem normalize_idempotent_without_suffix (s : string) :
  Forall (fun suffix => search true suffix (normalize_company_name s) = false)
    suffixes ->
  normalize_company_name (normalize_company_name s) = normalize_company_name s.
Proof.
  intros Hclean.
  destruct (normalize_shape s) as (Hlower & Hword & Hcoll & Hstrip).
  set (t := normalize_company_name s) in *.
  unfold normalize_company_name at 1.
  destruct (Text.is_empty t) eqn:Hempty; [by destruct t|]. cbv zeta.
  rewrite (lower_fixed_id t Hlower), Hstrip.
  rewrite (suffixes_no_match _ _ Hclean).
  rewrite sub_punct, (depunct_id t Hword).
  rewrite sub_spaces, (proj1 (collapse_collapsed t) Hcoll).
  exact Hstrip.
Qed.

(** ** The theorems on the sample runs

    Each theorem above that has hypotheses is applied to a sample input
    that meets them. *)

Lemma sample_run :
  structure_data sample_text sample_world sample_batch
  = Ok ([sample_company], sample_world_after).
Proof. vm_compute. reflexivity. Qed.

Lemma company_id_deterministic_witness :
  structure_data sample_text sample_world sample_batch
    = Ok ([sample_company], sample_world_after)
  /\ structure_data second_text second_world second_batch
    = Ok ([second_company], second_world_after)
  /\ id sample_company = generate_company_id (normalized_name sample_company)
  /\ id sample_company = id second_company.
Proof.
  assert (H1 : structure_data sample_text sample_world sample_batch
               = Ok ([sample_company], sample_world_after))
    by (vm_compute; reflexivity).
  assert (H2 : structure_data second_text second_world second_batch
               = Ok ([second_company], second_world_after))
    by (vm_compute; reflexivity).
  split; [exact H1|]. split; [exact H2|].
  apply (company_id_deterministic sample_text second_text sample_world
           second_world sample_batch second_batch [sample_company]
           [second_company] sample_world_after second_world_after
           sample_company second_company H1 H2);
    [left | left | reflexivity].
Defined.

Lemma emission_gate_witness :
  (exists fl, fl ∈ filings sample_company
     /\ existsb (fun t => Text.contains t (Text.upper (submission_type fl)))
          ["APPLICATION"; "REQUEST"; "PETITION"] = true)
  /\ is_likely_individual (entity_name sample_company) = false
  /\ is_applicant sample_company = true
  /\ entity_type sample_company = "Company"
  /\ ~ Forall (fun fl => submission_type fl = "COMMENT") (filings sample_company).
Proof.
  apply (emission_gate sample_text sample_world sample_batch [sample_company]
           sample_world_after sample_company);
    [vm_compute; reflexivity | left].
Defined.

Lemma filing_count_is_length_witness :
  filing_count sample_company = Z.of_nat (length (filings sample_company)).
Proof.
  apply (filing_count_is_length sample_text sample_world sample_batch
           [sample_company] sample_world_after sample_company);
    [vm_compute; reflexivity | left].
Defined.

Lemma filings_sorted_by_date_witness :
  dates_descending (filings sample_company)
  /\ forall before fl after,
       filings sample_company = before ++ fl :: after ->
       date_received fl = "" ->
       Forall (fun later => date_received later = "") after.
Proof.
  apply (filings_sorted_by_date sample_text sample_world sample_batch
           [sample_company] sample_world_after sample_company);
    [vm_compute; reflexivity | left].
Defined.

Lemma validation_report_witness :
  exists grouped : groups,
    group_filings sample_batch [] = Ok grouped
    /\ [sample_company] = companies_of (deduplicate grouped)
    /\ (let error_log := error_log_of sample_text (deduplicate grouped) in
        val_file sample_world_after =
          Stored (JArr (load_history sample_world ++
            [JObj [ ("timestamp", JStr (now sample_world));
                    ("total_processed",
                     JNum (Z.of_nat (length [sample_company])
                           + Z.of_nat (length error_log)));
                    ("valid_records",
                     JNum (Z.of_nat (length [sample_company])));
                    ("invalid_records", JNum (Z.of_nat (length error_log)));
                    ("error_samples",
                     JArr (map sample_json (take 5 error_log))) ]]))
        /\ (length (take 5 error_log) <= 5)%nat
        /\ Forall (from_invalid sample_text (deduplicate grouped)) error_log)
    /\ (val_file sample_world = Missing \/ val_file sample_world = Malformed ->
        load_history sample_world = [])
    /\ (forall content,
          val_file sample_world = Stored (JArr content) ->
          load_history sample_world = content)
    /\ (forall content,
          val_file sample_world = Stored content ->
          (forall l, content <> JArr l) ->
          load_history sample_world = [content])
    /\ (forall w2, exists w2',
          structure_data sample_text w2 sample_batch
          = Ok ([sample_company], w2')).
Proof.
  apply (validation_report sample_text sample_world sample_batch
           [sample_company] sample_world_after).
  vm_compute. reflexivity.
Defined.

Lemma topic_filter_drops_witness :
  structure_data sample_text sample_world (sample_batch ++ off_topic :: [])
  = structure_data sample_text sample_world (sample_batch ++ []).
Proof.
  apply (topic_filter_drops sample_text sample_world sample_batch []
           off_topic "Rural broadband" "10-90");
    vm_compute; reflexivity.
Defined.

Lemma normalize_idempotent_without_suffix_witness :
  normalize_company_name (normalize_company_name "Acme Communications LLC")
  = normalize_company_name "Acme Communications LLC".
Proof.
  apply (normalize_idempotent_without_suffix "Acme Communications LLC").
  repeat constructor; vm_compute; reflexivity.
Defined.


(** ** The search for matching blocks ends

    The loop of [get_matching_blocks] is given [2 * len(a) + 1] steps; they
    are enough, so [matches] is the sum that the library computes. *)

Section MatcherFacts.
Variables a b : list ascii.

Lemma row_within i alo ahi blo bhi j2len js newj2len best :
  (alo <= i < ahi)%nat ->
  bounded (i - alo) j2len ->
  bounded (i + 1 - alo) newj2len ->
  within alo ahi best ->
  bounded (i + 1 - alo) (Difflib.row i blo bhi j2len js newj2len best).1
  /\ within alo ahi (Difflib.row i blo bhi j2len js newj2len best).2.
Proof.
  intros Hi Hold. revert newj2len best.
  induction js as [|j js IH]; intros newj2len best Hnew Hbest; simpl; [done|].
  destruct (j <? blo)%nat; [by apply IH|].
  destruct (bhi <=? j)%nat; [done|].
  set (prev := match j with O => 0%nat | S j' => default 0%nat (j2len !! j') end).
  assert (Hprev : (prev <= i - alo)%nat).
  { subst prev. destruct j as [|j']; [lia|].
    destruct (j2len !! j') as [k|] eqn:Hk; simpl; [|lia].
    exact (Hold _ _ Hk). }
  apply IH.
  - apply map_Forall_insert_2; [lia|done].
  - destruct (best.2 <? S prev)%nat; [|done].
    unfold within. simpl. lia.
Qed.

Lemma rows_within n i alo ahi blo bhi j2len best :
  (alo <= i)%nat -> (i + n <= ahi)%nat ->
  bounded (i - alo) j2len ->
  within alo ahi best ->
  within alo ahi (Difflib.rows a b (seq i n) blo bhi j2len best).
Proof.
  revert i j2len best; induction n as [|n IH]; intros i j2len best Hlo Hhi Hold
    Hbest; simpl; [done|].
  destruct (a !! i) as [c|]; [|done].
  destruct (row_within i alo ahi blo bhi j2len (Difflib.b2j b c) ∅ best)
    as [Hnew Hbest']; [lia|done|apply map_Forall_empty|done|].
  destruct (Difflib.row i blo bhi j2len (Difflib.b2j b c) ∅ best)
    as [newj2len best'].
  simpl in *. apply IH; [lia|lia| |done].
  by replace (S i - alo)%nat with (i + 1 - alo)%nat by lia.
Qed.

Lemma extend_left_within fuel alo ahi blo best :
  within alo ahi best -> within alo ahi (Difflib.extend_left a b fuel alo blo best).
Proof.
  revert best; induction fuel as [|fuel IH]; intros [[bi bj] bk]; simpl; [done|].
  intros Hbest.
  destruct (alo <? bi)%nat eqn:Hlt; simpl; [|done].
  destruct ((blo <? bj)%nat && Difflib.same_at a b (bi - 1) (bj - 1)); [|done].
  apply IH. apply Nat.ltb_lt in Hlt. unfold within in *. simpl in *. lia.
Qed.

Lemma extend_right_within fuel alo ahi bhi best :
  within alo ahi best -> within alo ahi (Difflib.extend_right a b fuel ahi bhi best).
Proof.
  revert best; induction fuel as [|fuel IH]; intros [[bi bj] bk]; simpl; [done|].
  intros Hbest.
  destruct (bi + bk <? ahi)%nat eqn:Hlt; simpl; [|done].
  destruct ((bj + bk <? bhi)%nat && Difflib.same_at a b (bi + bk) (bj + bk));
    [|done].
  apply IH. apply Nat.ltb_lt in Hlt. unfold within in *. simpl in *. lia.
Qed.

Lemma find_longest_match_within alo ahi blo bhi :
  (alo <= ahi)%nat ->
  within alo ahi (Difflib.find_longest_match a b alo ahi blo bhi).
Proof.
  intros Hle. unfold Difflib.find_longest_match.
  apply extend_right_within, extend_left_within, rows_within.
  - done.
  - lia.
  - apply map_Forall_empty.
  - unfold within. simpl. lia.
Qed.

Lemma blocks_loop_enough fuel queue blocks :
  well_formed queue -> (weight queue <= fuel)%nat ->
  is_Some (Difflib.blocks_loop a b fuel queue blocks).
Proof.
  revert queue blocks; induction fuel as [|fuel IH]; intros queue blocks Hwf Hw.
  - destruct queue as [|[[[alo ahi] blo] bhi] queue]; simpl in *; [done|lia].
  - destruct queue as [|[[[alo ahi] blo] bhi] queue]; simpl in *; [done|].
    apply Forall_cons in Hwf as [Hle Hwf]. simpl in Hle.
    pose proof (find_longest_match_within alo ahi blo bhi Hle) as Hin.
    destruct (Difflib.find_longest_match a b alo ahi blo bhi) as [[i j] k].
    unfold within in Hin. simpl in Hin.
    destruct (0 <? k)%nat eqn:Hk; [|apply IH; [done|lia]].
    apply Nat.ltb_lt in Hk.
    destruct ((alo <? i)%nat && (blo <? j)%nat) eqn:H1;
      destruct ((i + k <? ahi)%nat && (j + k <? bhi)%nat) eqn:H2;
      simpl; apply IH; simpl;
      repeat (apply Forall_cons; split); simpl; try done; try lia.
Qed.

(** The loop of [get_matching_blocks] returns. *)
Lemma get_matching_blocks_returns :
  is_Some (Difflib.get_matching_blocks a b).
Proof.
  unfold Difflib.get_matching_blocks. apply blocks_loop_enough.
  - repeat constructor. simpl. lia.
  - simpl. lia.
Qed.

End MatcherFacts.

(** ** The patterns that are substituted do not match the empty string *)

Lemma lit_match_advances icase l d k prev s n m :
  advances d k ->
  lit_match icase l prev s n k = Some m ->
  (n + String.length l + d <= m)%nat.
Proof.
  intros Hk. revert prev s n.
  induction l as [|c l IH]; intros prev s n; simpl.
  - intros H. apply Hk in H. lia.
  - destruct s as [|x s]; [discriminate|].
    destruct (chr_eq icase c x); [|discriminate].
    intros H. apply IH in H. lia.
Qed.

Lemma star_match_advances p d k prev s n m :
  advances d k ->
  star_match p prev s n k = Some m -> (n + d <= m)%nat.
Proof.
  intros Hk. revert prev n.
  induction s as [|c s IH]; intros prev n; simpl; [apply Hk|].
  destruct (p c); [|apply Hk].
  destruct (star_match p (Some c) s (S n) k) as [m'|] eqn:Hs.
  - intros [= <-]. apply IH in Hs. lia.
  - apply Hk.
Qed.

Lemma rmatch_advances icase r :
  forall d k prev s n m,
    advances d k ->
    rmatch icase r prev s n k = Some m ->
    (n + min_len r + d <= m)%nat.
Proof.
  induction r as [|l|p|r1 IH1 r2 IH2|r1 IH1 r2 IH2|r1 IH1|p| | |];
    intros d k prev s n m Hk; simpl.
  - intros H. apply Hk in H. lia.
  - apply lit_match_advances, Hk.
  - destruct s as [|c s]; [discriminate|].
    destruct (p c); [|discriminate]. intros H. apply Hk in H. lia.
  - intros H. apply (IH1 (min_len r2 + d)%nat) in H; [lia|].
    intros prev' s' n' m' H'. apply (IH2 d) in H'; [lia|done].
  - destruct (rmatch icase r1 prev s n k) as [m'|] eqn:H1.
    + intros [= <-]. apply (IH1 d) in H1; [lia|done].
    + intros H2. apply (IH2 d) in H2; [lia|done].
  - destruct (rmatch icase r1 prev s n k) as [m'|] eqn:H1.
    + intros [= <-]. apply (IH1 d) in H1; [lia|done].
    + intros H. apply Hk in H. lia.
  - intros H. apply star_match_advances with (d := d) in H; [lia|done].
  - destruct (xorb (word_before prev) (word_after s)); [|discriminate].
    intros H. apply Hk in H. lia.
  - destruct prev; [discriminate|]. intros H. apply Hk in H. lia.
  - destruct (at_eol s); [|discriminate]. intros H. apply Hk in H. lia.
Qed.

(** A match of one of the patterns given to [re.sub] takes a character at
    least, as [sub_from] assumes. *)
Lemma substituted_patterns_consume icase r prev s :
  r ∈ suffixes ++ [re_punct; re_spaces] ->
  match_here icase r prev s <> Some O.
Proof.
  intros Hr H. unfold match_here in H.
  apply (rmatch_advances icase r 0) in H; [|by intros ? ? ? ? [= <-]; lia].
  assert (Hmin : Forall (fun r => (1 <= min_len r)%nat)
                   (suffixes ++ [re_punct; re_spaces])).
  { repeat constructor; simpl; lia. }
  rewrite Forall_forall in Hmin. specialize (Hmin r Hr). lia.
Qed.

(** ** The keys of ASCII names are ASCII

    [generate_company_id] is applied to normalized keys only.  The key of
    an ASCII name is made of ASCII word characters and spaces, which UTF-8
    encodes as themselves: on such keys [Uuid.encode] is the encoding of
    Python. *)

Lemma word_or_space_ascii c : word_or_space c -> (Text.code c < 128)%N.
Proof.
  unfold word_or_space.
  destruct c as [[] [] [] [] [] [] [] []]; vm_compute; congruence.
Qed.

Lemma isascii_str_Forall s :
  str_Forall (fun c => (Text.code c < 128)%N) s -> Text.isascii s = true.
Proof.
  induction s as [|c s IH]; simpl; [done|].
  intros [Hc Hs]. apply andb_true_iff. split; [by apply N.ltb_lt|by apply IH].
Qed.

Lemma normalized_key_ascii s :
  Text.isascii s = true -> Text.isascii (normalize_company_name s) = true.
Proof.
  intros _. apply isascii_str_Forall.
  eapply str_Forall_impl; [apply word_or_space_ascii|].
  apply (normalize_shape s).
Qed.

(** * Further properties of the structuring pass *)

(** ** The dictionary of clusters *)

Lemma group_append_keys_in k f grouped :
  k ∈ group_keys grouped ->
  group_keys (group_append k f grouped) = group_keys grouped.
Proof.
  unfold group_keys. induction grouped as [|[k' fs] grouped IH]; simpl.
  - intros []%elem_of_nil.
  - destruct (String.eqb_spec k' k) as [->|Hne]; simpl; [done|].
    intros [?|Hin]%elem_of_cons; [by subst|]. by rewrite IH.
Qed.

Lemma group_append_keys_new k f grouped :
  k ∉ group_keys grouped ->
  group_keys (group_append k f grouped) = group_keys grouped ++ [k].
Proof.
  unfold group_keys. induction grouped as [|[k' fs] grouped IH]; simpl; [done|].
  intros Hnin. apply not_elem_of_cons in Hnin as [Hne Hnin].
  destruct (String.eqb_spec k' k) as [->|_]; simpl; [done|]. by rewrite IH.
Qed.

Lemma group_append_NoDup k f grouped :
  NoDup (group_keys grouped) -> NoDup (group_keys (group_append k f grouped)).
Proof.
  intros Hnd. destruct (decide (k ∈ group_keys grouped)) as [Hin|Hnin].
  - by rewrite group_append_keys_in.
  - rewrite group_append_keys_new by done.
    apply NoDup_app. repeat split; [done| |apply NoDup_singleton].
    intros x Hx Heq%list_elem_of_singleton. by subst x.
Qed.

Lemma group_append_filings k f grouped :
  group_filings_of (group_append k f grouped) ≡ₚ f :: group_filings_of grouped.
Proof.
  unfold group_filings_of.
  induction grouped as [|[k' fs] grouped IH]; simpl; [done|].
  destruct (String.eqb k' k); simpl.
  - rewrite <- app_assoc. simpl. symmetry. apply Permutation_middle.
  - rewrite IH. symmetry. apply Permutation_middle.
Qed.

Lemma group_extend_keys k fs grouped :
  group_keys (group_extend k fs grouped) = group_keys grouped.
Proof.
  unfold group_keys. induction grouped as [|[k' fs'] grouped IH]; simpl; [done|].
  destruct (String.eqb k' k); simpl; [done|]. by rewrite IH.
Qed.

Lemma group_extend_filings k fs grouped :
  k ∈ group_keys grouped ->
  group_filings_of (group_extend k fs grouped) ≡ₚ group_filings_of grouped ++ fs.
Proof.
  unfold group_keys, group_filings_of.
  induction grouped as [|[k' fs'] grouped IH]; simpl.
  - intros []%elem_of_nil.
  - destruct (String.eqb_spec k' k) as [->|Hne]; simpl.
    + intros _. rewrite <- !app_assoc. apply Permutation_app_head.
      apply Permutation_app_comm.
    + intros [?|Hin]%elem_of_cons; [by subst|].
      rewrite (IH Hin). by rewrite app_assoc.
Qed.

Lemma group_get_extend_ne k k' fs grouped :
  k <> k' -> group_get k' (group_extend k fs grouped) = group_get k' grouped.
Proof.
  intros Hne. induction grouped as [|[k'' fs'] grouped IH]; simpl; [done|].
  destruct (String.eqb_spec k'' k) as [->|Hne1]; simpl.
  - destruct (String.eqb_spec k k'); [done|done].
  - destruct (String.eqb k'' k'); [done|apply IH].
Qed.

Lemma group_del_filings k grouped :
  group_filings_of grouped
  ≡ₚ group_get k grouped ++ group_filings_of (group_del k grouped).
Proof.
  unfold group_filings_of.
  induction grouped as [|[k' fs] grouped IH]; simpl; [done|].
  destruct (String.eqb k' k); simpl; [done|].
  rewrite IH. rewrite !app_assoc. apply Permutation_app_tail.
  apply Permutation_app_comm.
Qed.

Lemma group_del_keys_sublist k grouped :
  group_keys (group_del k grouped) `sublist_of` group_keys grouped.
Proof.
  unfold group_keys. induction grouped as [|[k' fs] grouped IH]; simpl; [done|].
  destruct (String.eqb k' k); simpl.
  - by apply sublist_cons.
  - by apply sublist_skip.
Qed.

Lemma group_del_keys_other k k' grouped :
  k' <> k -> k' ∈ group_keys grouped -> k' ∈ group_keys (group_del k grouped).
Proof.
  unfold group_keys. intros Hne.
  induction grouped as [|[k'' fs] grouped IH]; simpl; [done|].
  destruct (String.eqb_spec k'' k) as [->|Hne']; simpl.
  - intros [?|?]%elem_of_cons; [by subst|done].
  - intros [->|?]%elem_of_cons; [left|right; by apply IH].
Qed.

(** One merge: the filings of [k2] move to [k1]. *)
Lemma merge_step_filings k1 k2 grouped :
  k1 <> k2 -> k1 ∈ group_keys grouped ->
  group_filings_of (group_del k2 (group_extend k1 (group_get k2 grouped) grouped))
  ≡ₚ group_filings_of grouped.
Proof.
  intros Hne Hin.
  pose proof (group_del_filings k2
                (group_extend k1 (group_get k2 grouped) grouped)) as Hdel.
  rewrite group_get_extend_ne in Hdel by done.
  rewrite (group_extend_filings _ _ _ Hin) in Hdel.
  rewrite (Permutation_app_comm (group_filings_of grouped)) in Hdel.
  by apply Permutation_app_inv_l in Hdel.
Qed.

(** ** The deduplication pass *)

Lemma insert_key_perm k l : insert_key k l ≡ₚ k :: l.
Proof.
  induction l as [|y l IH]; simpl; [done|].
  destruct (Text.str_lt k y); [done|]. rewrite IH. apply Permutation_swap.
Qed.

Lemma sort_keys_perm keys : sort_keys keys ≡ₚ keys.
Proof.
  unfold sort_keys.
  assert (H : forall l sorted,
             fold_left (fun sorted k => insert_key k sorted) l sorted
             ≡ₚ sorted ++ l).
  { induction l as [|k l IH]; intros sorted; simpl.
    - by rewrite app_nil_r.
    - rewrite IH, insert_key_perm. simpl. apply Permutation_middle. }
  apply H.
Qed.

Lemma merge_into_inv (tracked : list string) k1 rest skip grouped skip' grouped' :
  merge_into k1 rest skip grouped = (skip', grouped') ->
  k1 ∉ rest -> k1 ∉ skip -> k1 ∈ group_keys grouped ->
  (forall k, k ∈ tracked -> k ∉ skip -> k ∈ group_keys grouped) ->
  group_filings_of grouped' ≡ₚ group_filings_of grouped
  /\ group_keys grouped' `sublist_of` group_keys grouped
  /\ (forall k, k ∈ tracked -> k ∉ skip' -> k ∈ group_keys grouped').
Proof.
  revert skip grouped.
  induction rest as [|k2 rest IH]; intros skip grouped; simpl.
  - intros [= <- <-] _ _ _ Halive. done.
  - intros Hm Hk1 Hskip Hin Halive.
    apply not_elem_of_cons in Hk1 as [Hne Hk1].
    case_bool_decide as Hk2; [by apply (IH skip grouped)|].
    destruct (is_duplicate k1 k2); [|by apply (IH skip grouped)].
    apply IH in Hm;
      [| done
       | by intros [?%elem_of_singleton|?]%elem_of_union
       | | ].
    + destruct Hm as (Hperm & Hsub & Halive').
      split; [by rewrite Hperm, merge_step_filings|].
      split; [|done].
      etrans; [exact Hsub|]. etrans; [apply group_del_keys_sublist|].
      by rewrite group_extend_keys.
    + apply group_del_keys_other; [done|]. by rewrite group_extend_keys.
    + intros k Hk Hnot. apply not_elem_of_union in Hnot as [Hk' Hnot].
      apply not_elem_of_singleton in Hk'.
      apply group_del_keys_other; [done|].
      rewrite group_extend_keys. by apply Halive.
Qed.

Lemma dedup_inv keys skip grouped :
  NoDup keys ->
  (forall k, k ∈ keys -> k ∉ skip -> k ∈ group_keys grouped) ->
  group_filings_of (dedup keys skip grouped) ≡ₚ group_filings_of grouped
  /\ group_keys (dedup keys skip grouped) `sublist_of` group_keys grouped.
Proof.
  revert skip grouped.
  induction keys as [|k1 rest IH]; intros skip grouped Hnd Halive; simpl;
    [done|].
  apply NoDup_cons in Hnd as [Hk1 Hnd].
  case_bool_decide as Hskip.
  - apply IH; [done|]. intros k Hk. apply Halive. by right.
  - destruct (merge_into k1 rest skip grouped) as [skip' grouped'] eqn:Hm.
    apply (merge_into_inv rest) in Hm as (Hperm & Hsub & Halive');
      [|done|done|apply Halive; [left|done]|].
    + destruct (IH skip' grouped' Hnd Halive') as [Hperm' Hsub'].
      split; [by rewrite Hperm'|by etrans].
    + intros k Hk. apply Halive. by right.
Qed.

Lemma deduplicate_inv (grouped : groups) :
  NoDup (group_keys grouped) ->
  group_filings_of (deduplicate grouped) ≡ₚ group_filings_of grouped
  /\ group_keys (deduplicate grouped) `sublist_of` group_keys grouped
  /\ NoDup (group_keys (deduplicate grouped)).
Proof.
  intros Hnd. unfold deduplicate.
  destruct (dedup_inv (sort_keys (map fst grouped)) ∅ grouped) as [Hperm Hsub].
  - by rewrite sort_keys_perm.
  - intros k Hk _. by rewrite sort_keys_perm in Hk.
  - split; [done|]. split; [done|]. by eapply sublist_NoDup.
Qed.

(** Property X1.  The pass neither loses nor duplicates a filing and creates
    no key: when the keys of [grouped] are distinct, as those of a
    dictionary are, the filings of all clusters after the pass are those
    before it in another order, and the keys that remain are keys of
    [grouped], distinct and in the same order. *)
Theorem deduplicate_conserves_filings (grouped : groups) :
  NoDup (group_keys grouped) ->
  group_filings_of (deduplicate grouped) ≡ₚ group_filings_of grouped
  /\ group_keys (deduplicate grouped) `sublist_of` group_keys grouped
  /\ NoDup (group_keys (deduplicate grouped)).
Proof. apply deduplicate_inv. Qed.

(** ** The grouping loop *)

Lemma group_filings_inv batch grouped grouped' :
  group_filings batch grouped = Ok grouped' ->
  (NoDup (group_keys grouped) -> NoDup (group_keys grouped'))
  /\ (forall f, f ∈ group_filings_of grouped' ->
        f ∈ group_filings_of grouped
        \/ (f ∈ batch /\ exists k, accepted f k))
  /\ (forall k, k ∈ group_keys grouped' ->
        k ∈ group_keys grouped \/ exists f, f ∈ batch /\ accepted f k).
Proof.
  revert grouped. induction batch as [|f batch IH]; intros grouped; simpl.
  - intros [= <-]. repeat split; auto.
  - intros H. bind_inv H as ipes Hipes.
    assert (Hskip : group_filings batch grouped = Ok grouped' ->
      (NoDup (group_keys grouped) -> NoDup (group_keys grouped'))
      /\ (forall f0, f0 ∈ group_filings_of grouped' ->
            f0 ∈ group_filings_of grouped
            \/ (f0 ∈ f :: batch /\ exists k, accepted f0 k))
      /\ (forall k, k ∈ group_keys grouped' ->
            k ∈ group_keys grouped
            \/ exists f0, f0 ∈ f :: batch /\ accepted f0 k)).
    { intros H'. destruct (IH _ H') as (Hnd & Hf & Hk).
      split; [done|]. split.
      - intros f0 Hf0. destruct (Hf f0 Hf0) as [?|[? ?]]; [by left|].
        right. split; [by right|done].
      - intros k Hk0. destruct (Hk k Hk0) as [?|(f0 & ? & ?)]; [by left|].
        right. exists f0. split; [by right|done]. }
    destruct ipes; [|by apply Hskip].
    bind_inv H as name Hname.
    destruct (Text.is_empty name || should_exclude name) eqn:Hex;
      [by apply Hskip|].
    destruct (Text.is_empty (normalize_company_name name)) eqn:Hempty;
      simpl in H; [by apply Hskip|].
    destruct (IH _ H) as (Hnd & Hf & Hk).
    split; [intros; by apply Hnd, group_append_NoDup|].
    assert (Hacc : accepted f (normalize_company_name name)).
    { destruct (get_or f "company_name" (PStr "")) as [|raw|] eqn:Hraw;
        try discriminate.
      injection Hname as <-. exists raw. repeat split; try done.
      intros Hk0. by rewrite Hk0 in Hempty. }
    split.
    + intros f0 Hf0. destruct (Hf f0 Hf0) as [Hin|[? ?]].
      * rewrite group_append_filings in Hin.
        apply elem_of_cons in Hin as [->|?]; [|by left].
        right. split; [left|eauto].
      * right. split; [by right|done].
    + intros k Hk0. destruct (Hk k Hk0) as [Hin|(f0 & ? & ?)].
      * destruct (decide (normalize_company_name name ∈ group_keys grouped))
          as [Hold|Hnew].
        -- rewrite group_append_keys_in in Hin by done. by left.
        -- rewrite group_append_keys_new in Hin by done.
           apply elem_of_app in Hin as [?|Heq%list_elem_of_singleton];
             [by left|subst k].
           right. exists f. split; [left|done].
      * right. exists f0. split; [by right|done].
Qed.

(** ** One company for each key *)

Section NamesFacts.
Variable error_text : list error_loc -> string.

Lemma assemble_all_names grouped cs0 n0 log0 cs n log :
  assemble_all error_text grouped (cs0, n0, log0) = Ok (cs, n, log) ->
  exists new_cs,
    cs = cs0 ++ new_cs
    /\ map normalized_name new_cs `sublist_of` group_keys grouped.
Proof.
  unfold group_keys. revert cs0 n0 log0.
  induction grouped as [|[name fs] grouped IH]; intros cs0 n0 log0; simpl.
  - intros [= <- <- <-]. exists []. by rewrite app_nil_r.
  - intros H. bind_inv H as o Ho. destruct o as [c|name' errs|].
    + apply IH in H as (new_cs & -> & Hsub).
      exists (c :: new_cs). rewrite <- app_assoc. split; [done|]. simpl.
      apply assemble_emitted in Ho
        as (? & ? & ? & ? & _ & _ & _ & _ & _ & _ & ->).
      simpl. by apply sublist_skip.
    + apply IH in H as (new_cs & -> & Hsub).
      exists new_cs. split; [done|]. by apply sublist_cons.
    + apply IH in H as (new_cs & -> & Hsub).
      exists new_cs. split; [done|]. by apply sublist_cons.
Qed.

Lemma structure_data_names w batch out w' :
  structure_data error_text w batch = Ok (out, w') ->
  exists grouped,
    group_filings batch [] = Ok grouped
    /\ map normalized_name out `sublist_of` group_keys (deduplicate grouped).
Proof.
  unfold structure_data. intros H.
  bind_inv H as grouped Hgrouped. bind_inv H as st Hst.
  destruct st as [[cs n] log].
  rewrite py_sort_constant_key in H. simpl in H. injection H as <- _.
  apply assemble_all_names in Hst as (new_cs & -> & Hsub).
  by exists grouped.
Qed.

End NamesFacts.

(** Property X2.  The companies of the output have distinct normalized
    names: the pass emits one company at most for each key that is left
    after the merge. *)
Theorem one_company_per_key (text : list error_loc -> string) (w : World)
    (batch : list raw_filing) out w' :
  structure_data text w batch = Ok (out, w') ->
  NoDup (map normalized_name out).
Proof.
  intros H. apply structure_data_names in H as (grouped & Hg & Hsub).
  eapply sublist_NoDup; [|exact Hsub].
  apply deduplicate_inv.
  apply group_filings_inv in Hg as (Hnd & _ & _). apply Hnd. constructor.
Qed.

(** Property X3.  The normalized name of an emitted company is the key of a
    filing of the batch: a filing of an IPES proceeding whose name, once
    stripped, is not empty, does not match an exclusion pattern, and
    normalizes to that name, which is not empty. *)
Theorem normalized_name_provenance (text : list error_loc -> string)
    (w : World) (batch : list raw_filing) out w' (c : Company) :
  structure_data text w batch = Ok (out, w') ->
  c ∈ out ->
  exists f, f ∈ batch /\ accepted f (normalized_name c).
Proof.
  intros H Hc. apply structure_data_names in H as (grouped & Hg & Hsub).
  assert (Hk : normalized_name c ∈ group_keys grouped).
  { assert (Hnd : NoDup (group_keys grouped)).
    { apply group_filings_inv in Hg as (Hnd & _ & _). apply Hnd. constructor. }
    destruct (deduplicate_inv grouped Hnd) as (_ & Hsub' & _).
    eapply sublist_subseteq; [exact Hsub'|].
    eapply sublist_subseteq; [exact Hsub|].
    by apply list_elem_of_fmap_2. }
  apply group_filings_inv in Hg as (_ & _ & Hkeys).
  destruct (Hkeys _ Hk) as [[]%elem_of_nil|Hacc]. exact Hacc.
Qed.

(** ** Batches on which the pass returns *)

Lemma str_or_missing_get_or f key :
  str_or_missing f key -> exists s, get_or f key (PStr "") = PStr s.
Proof.
  unfold str_or_missing, get_or.
  destruct (f !! key) as [[|s|z]|]; simpl; intros H; try done; eauto.
Qed.

Lemma well_typed_is_ipes f : well_typed f -> exists b, is_ipes f = Ok b.
Proof.
  intros (Hpd & Hdk & _). unfold is_ipes.
  apply str_or_missing_get_or in Hpd as [pd ->].
  apply str_or_missing_get_or in Hdk as [dk ->]. simpl. eauto.
Qed.

Lemma group_filings_total batch grouped :
  Forall well_typed batch -> exists grouped', group_filings batch grouped = Ok grouped'.
Proof.
  intros Hty. revert grouped.
  induction Hty as [|f batch Hf Hty IH]; intros grouped; simpl; [eauto|].
  destruct (well_typed_is_ipes f Hf) as [b ->]. simpl.
  destruct b; [|apply IH].
  destruct Hf as (_ & _ & Hname & _).
  apply str_or_missing_get_or in Hname as [name ->]. simpl.
  destruct (Text.is_empty (Text.strip name) || should_exclude (Text.strip name));
    [apply IH|].
  destruct (negb (Text.is_empty (normalize_company_name (Text.strip name))));
    apply IH.
Qed.

Section SortTotal.
Context {A : Type} (key : A -> pyval).

Lemma insert_sorted_total x sorted :
  str_key key x -> Forall (str_key key) sorted ->
  exists r, insert_sorted key x sorted = Ok r.
Proof.
  intros [s Hx]. induction 1 as [|y sorted [t Hy] Hs IH]; simpl; [eauto|].
  rewrite Hx, Hy. simpl. destruct (Text.str_lt s t); [eauto|].
  destruct IH as [r ->]. simpl. eauto.
Qed.

Lemma sort_into_total l sorted :
  Forall (str_key key) l -> Forall (str_key key) sorted ->
  exists r, sort_into key l sorted = Ok r.
Proof.
  intros Hl. revert sorted.
  induction Hl as [|x l Hx Hl IH]; intros sorted Hs; simpl; [eauto|].
  destruct (insert_sorted_total x sorted Hx Hs) as [s' Hs']. rewrite Hs'. simpl.
  apply IH. rewrite (insert_sorted_perm key _ _ _ Hs'). by constructor.
Qed.

Lemma py_sort_total reverse l :
  Forall (str_key key) l -> exists r, py_sort key reverse l = Ok r.
Proof.
  intros Hl. unfold py_sort. destruct reverse.
  - destruct (sort_into_total (rev l) []) as [r ->]; [|constructor|simpl; eauto].
    by apply Forall_rev.
  - by apply sort_into_total.
Qed.

End SortTotal.

Lemma max_by_len_total best best_len names :
  Forall (fun v => exists s, v = PStr s) names ->
  exists p, max_by_len best best_len names = Ok p.
Proof.
  intros Hn. revert best best_len.
  induction Hn as [|v names [s ->] Hn IH]; intros best best_len; simpl; [eauto|].
  destruct (best_len <? String.length s)%nat; apply IH.
Qed.

Lemma any_application_total fs :
  Forall well_typed fs -> exists b, any_application fs = Ok b.
Proof.
  induction 1 as [|f fs Hf Hfs [b IH]]; simpl; [eauto|].
  destruct Hf as (_ & _ & _ & Hst & _).
  unfold is_application_type.
  apply str_or_missing_get_or in Hst as [st ->]. simpl.
  match goal with
  | |- context [if ?c then _ else _] => destruct c
  end; eauto.
Qed.

Lemma process_filing_total f :
  well_typed f ->
  exists r, process_filing f = Ok r /\ str_key fr_date_received r.
Proof.
  intros (_ & _ & _ & _ & Hurls & d & Hd). unfold process_filing.
  assert (Hu : exists urls,
             (if truthy (get f "document_urls")
              then py_split "; " (get_or f "document_urls" (PStr ""))
              else Ok []) = Ok urls).
  { destruct (truthy (get f "document_urls")); [|eauto].
    apply str_or_missing_get_or in Hurls as [u ->]. simpl. eauto. }
  destruct Hu as [urls ->]. simpl. eexists. split; [done|].
  exists d. simpl. unfold get. by rewrite Hd.
Qed.

Lemma process_filings_total fs :
  Forall well_typed fs ->
  exists rs, process_filings fs = Ok rs /\ Forall (str_key fr_date_received) rs.
Proof.
  induction 1 as [|f fs Hf Hfs (rs & IH & Hrs)]; simpl; [eauto|].
  destruct (process_filing_total f Hf) as (r & -> & Hr). simpl.
  rewrite IH. simpl. eexists. split; [done|]. by constructor.
Qed.

Lemma assemble_total name fs :
  Forall well_typed fs -> exists o, assemble name fs = Ok o.
Proof.
  intros Hty. unfold assemble.
  assert (Hp : exists p,
             primary_name_of name
               (map (fun f => get_or f "company_name" (PStr "")) fs) = Ok p).
  { destruct Hty as [|f fs Hf Hfs]; simpl; [eauto|].
    destruct Hf as (_ & _ & Hname & _).
    apply str_or_missing_get_or in Hname as [s ->]. simpl.
    apply max_by_len_total. apply Forall_fmap.
    eapply Forall_impl; [exact Hfs|].
    intros g (_ & _ & Hg & _). by apply str_or_missing_get_or. }
  destruct Hp as [p ->]. cbn [rbind].
  destruct (any_application_total fs Hty) as [b ->]. cbn [rbind].
  destruct (process_filings_total fs Hty) as (rs & -> & Hrs). cbn [rbind].
  destruct (py_sort_total fr_date_received true rs Hrs) as [sorted ->].
  cbn [rbind].
  destruct (b && negb (is_likely_individual p)); [|eauto].
  destruct (validate_company _); eauto.
Qed.

Lemma assemble_all_total error_text grouped st :
  Forall well_typed (group_filings_of grouped) ->
  exists st', assemble_all error_text grouped st = Ok st'.
Proof.
  unfold group_filings_of. revert st.
  induction grouped as [|[name fs] grouped IH]; intros st; simpl; [eauto|].
  intros [Hfs Hrest]%Forall_app.
  destruct (assemble_total name fs Hfs) as [o ->]. simpl.
  destruct st as [[cs n] log]. destruct o; by apply IH.
Qed.

Lemma structure_data_total (text : list error_loc -> string) (w : World)
    (batch : list raw_filing) :
  Forall well_typed batch ->
  exists out w', structure_data text w batch = Ok (out, w').
Proof.
  intros Hty. unfold structure_data.
  destruct (group_filings_total batch [] Hty) as [grouped Hg].
  rewrite Hg. cbn [rbind].
  destruct (assemble_all_total text (deduplicate grouped) ([], 0%Z, []))
    as [[[cs n] log] Hst].
  { destruct (group_filings_inv _ _ _ Hg) as (Hnd & Hin & _).
    destruct (deduplicate_inv grouped (Hnd (NoDup_nil_2))) as (Hperm & _).
    rewrite Hperm. apply Forall_forall. intros f Hf.
    destruct (Hin f Hf) as [[]%elem_of_nil|[Hb _]].
    rewrite Forall_forall in Hty. by apply Hty. }
  rewrite Hst. cbn [rbind]. rewrite py_sort_constant_key. simpl. eauto.
Qed.

(** Property X4.  The pass returns on every batch of well-typed filings: no
    exception leaves [structure_data] when the fields it reads hold strings
    (or are absent) and every filing has a [date_received]. *)
Theorem structure_data_returns (text : list error_loc -> string) (w : World)
    (batch : list raw_filing) :
  Forall well_typed batch ->
  exists out w', structure_data text w batch = Ok (out, w').
Proof. apply structure_data_total. Qed.

(** ** Filings that the first loop passes over *)

Lemma group_filings_rejected before f after grouped :
  rejected f ->
  group_filings (before ++ f :: after) grouped
  = group_filings (before ++ after) grouped.
Proof.
  intros [Hf|(Hf & name & Hname & Hbad)];
    [by apply group_filings_not_ipes|].
  revert grouped.
  induction before as [|g before IH]; intros grouped; simpl.
  - rewrite Hf, Hname. simpl.
    destruct Hbad as [->|Hempty]; [done|].
    destruct (Text.is_empty (Text.strip name) || should_exclude (Text.strip name));
      [done|].
    by rewrite Hempty.
  - destruct (is_ipes g) as [[]|]; simpl; [|done|done].
    destruct (py_strip (get_or g "company_name" (PStr ""))) as [nm|];
      simpl; [|done].
    destruct (Text.is_empty nm || should_exclude nm); [done|].
    by destruct (negb (Text.is_empty (normalize_company_name nm))).
Qed.

(** Property X5.  A filing of an IPES proceeding whose name cannot be used
    (it is empty once stripped, it matches an exclusion pattern such as that
    of the commission, or it is made of business suffixes only) is dropped
    before the grouping: the run with it is the run without it. *)
Theorem unusable_name_dropped (text : list error_loc -> string) (w : World)
    (before after : list raw_filing) (f : raw_filing) :
  is_ipes f = Ok true ->
  unusable_name f ->
  structure_data text w (before ++ f :: after)
  = structure_data text w (before ++ after).
Proof.
  intros Hf Hname. unfold structure_data.
  rewrite group_filings_rejected; [done|]. by right.
Qed.

Lemma group_filings_all_rejected batch grouped :
  Forall rejected batch -> group_filings batch grouped = Ok grouped.
Proof.
  induction 1 as [|f batch Hf Hb IH]; [done|].
  change (f :: batch) with ([] ++ f :: batch).
  by rewrite (group_filings_rejected [] f batch grouped Hf).
Qed.

(** Property X6.  A batch in which the first loop passes over every filing,
    and the empty batch among them, gives no company and does not fail: the
    run returns the empty list and appends a record with no valid and no
    invalid entry to the history. *)
Theorem nothing_accepted_nothing_emitted (text : list error_loc -> string)
    (w : World) (batch : list raw_filing) :
  Forall rejected batch ->
  structure_data text w batch
  = Ok ([], {| now := now w;
               val_file := Stored (JArr (load_history w ++ [empty_stats w])) |}).
Proof.
  intros Hrej. unfold structure_data.
  by rewrite (group_filings_all_rejected batch [] Hrej).
Qed.

(** ** The shape of a normalized key *)

Lemma starts_with_double_space t :
  Text.starts_with "  " t = true ->
  exists r, t = String " " (String " " r).
Proof.
  destruct t as [|c [|d r]]; cbn [Text.starts_with].
  - discriminate.
  - destruct (Ascii.eqb " " c); discriminate.
  - destruct (Ascii.eqb_spec " "%char c) as [<-|]; [|discriminate].
    destruct (Ascii.eqb_spec " "%char d) as [<-|]; [|discriminate]. eauto.
Qed.

Lemma collapsed_no_double_space b t :
  collapsed b t -> Text.contains "  " t = false.
Proof.
  revert b; induction t as [|c t IH]; intros b; [done|].
  intros Hc. cbn [Text.contains]. rewrite orb_false_iff. split.
  - destruct (Text.starts_with "  " (String c t)) eqn:Hs; [|done].
    apply starts_with_double_space in Hs as [r [= -> ->]].
    simpl in Hc. by destruct Hc as (_ & _ & _ & ? & _).
  - simpl in Hc. destruct (Text.is_space c); [|by eapply IH].
    destruct Hc as (_ & _ & Hc). by eapply IH.
Qed.

Lemma key_chars t :
  str_Forall lower_fixed t -> str_Forall word_or_space t -> collapsed false t ->
  str_Forall key_char t.
Proof.
  generalize false as b.
  induction t as [|c t IH]; intros b; simpl; [done|].
  intros [Hl Hlt] [Hw Hwt] Hc. unfold word_or_space in Hw.
  destruct (Text.is_space c) eqn:Hsp.
  - destruct Hc as (-> & _ & Hc). split; [by left|by eapply IH].
  - rewrite orb_false_r in Hw. split; [by right|by eapply IH].
Qed.

(** Property X7.  The normalized key of an ASCII name is made of lower case
    letters, digits, underscores and single spaces, and it neither starts
    nor ends with a space.  (Of a name with other characters Python keeps
    the letters, which the model does not know: such names are left out.) *)
Theorem normalized_key_shape (s : string) :
  Text.isascii s = true ->
  let t := normalize_company_name s in
  str_Forall key_char t
  /\ Text.contains "  " t = false
  /\ Text.strip t = t.
Proof.
  intros _.
  destruct (normalize_shape s) as (Hlower & Hword & Hcoll & Hstrip).
  split; [by apply key_chars|].
  split; [by eapply collapsed_no_double_space|done].
Qed.

(** ** The relational projection of [main] *)

Lemma elem_of_concat {A} (x : A) (ls : list (list A)) :
  x ∈ concat ls -> exists l, x ∈ l /\ l ∈ ls.
Proof.
  induction ls as [|l ls IH]; simpl; [by intros []%elem_of_nil|].
  intros [Hx|Hx]%elem_of_app.
  - exists l. split; [done|left].
  - destruct (IH Hx) as (l' & ? & ?). exists l'. split; [done|by right].
Qed.

Lemma main_outputs_inv text w input o :
  main_outputs (main text w input) = Some o ->
  exists batch out w',
    input = Some batch
    /\ structure_data text w batch = Ok (out, w')
    /\ o = write_outputs out.
Proof.
  unfold main. destruct input as [batch|]; [|discriminate].
  destruct (structure_data text w batch) as [[out w']|e] eqn:Hrun;
    [|discriminate].
  destruct out as [|c out]; intros [= <-].
  - by exists batch, [], w'.
  - by exists batch, (c :: out), w'.
Qed.

Lemma emitted_count text w batch out w' c :
  structure_data text w batch = Ok (out, w') -> c ∈ out ->
  filing_count c = Z.of_nat (length (filings c))
  /\ filings c <> []
  /\ dates_descending (filings c).
Proof.
  intros H Hc.
  apply structure_data_inv in H as (grouped & _ & _ & Hout & _).
  rewrite Forall_forall in Hout.
  destruct (Hout c Hc) as (name & fs & _ & Hemit).
  apply assemble_emitted in Hemit
    as (primary & processed & sorted & vfs & _ & _ & Happ & Hproc & Hsort
        & Hval & ->).
  simpl. pose proof (validate_filings_Forall2 _ _ Hval) as Hval2.
  split; [by rewrite (Forall2_length _ _ _ Hval2)|]. split.
  - apply any_application_true in Happ as (f & Hf & _).
    apply process_filings_Forall2 in Hproc.
    destruct (Forall2_elem_l _ _ _ _ Hproc Hf) as (r & Hr & _).
    apply py_sort_perm in Hsort. rewrite <- Hsort in Hr.
    destruct (Forall2_elem_l _ _ _ _ Hval2 Hr) as (fl & Hfl & _).
    intros ->. by apply elem_of_nil in Hfl.
  - apply py_sort_descending in Hsort.
    eapply StronglySorted_Forall2; [|exact Hval2|exact Hsort].
    intros r1 r2 f1 f2 Hf1 Hf2.
    apply validate_filing_fields in Hf1 as (_ & -> & _).
    apply validate_filing_fields in Hf2 as (_ & -> & _).
    unfold py_ge. simpl. by intros [= ->].
Qed.

(** Property X8.  The two tables that [main] writes fit together: there is
    one row for each company, the [company_id] of every filing row is the
    [id] of a company row, and the number of filing rows is the sum of the
    [filing_count] columns. *)
Theorem tables_consistent (text : list error_loc -> string) (w : World)
    (input : option (list raw_filing)) (o : outputs) :
  main_outputs (main text w input) = Some o ->
  length (companies_csv o) = length (companies_with_filings o)
  /\ Forall (fun row => company_id row ∈ map row_id (companies_csv o))
       (filings_csv o)
  /\ Z.of_nat (length (filings_csv o))
     = foldr Z.add 0%Z (map row_filing_count (companies_csv o)).
Proof.
  intros H. apply main_outputs_inv in H as (batch & out & w' & -> & Hrun & ->).
  simpl. split; [by rewrite length_map|].
  assert (Hcount : Forall (fun c => filing_count c
                                   = Z.of_nat (length (filings c))) out).
  { apply Forall_forall. intros c Hc.
    by destruct (emitted_count _ _ _ _ _ _ Hrun Hc). }
  clear Hrun. split.
  - apply Forall_forall. intros row Hrow.
    apply elem_of_concat in Hrow as (rows & Hrow & Hrows).
    apply list_elem_of_fmap in Hrows as (c & -> & Hc).
    unfold filing_rows_of in Hrow.
    apply list_elem_of_fmap in Hrow as (fl & -> & _). simpl.
    apply list_elem_of_fmap. exists (company_row_of c). split; [done|].
    by apply list_elem_of_fmap_2.
  - induction Hcount as [|c out Hc Hcount IH]; simpl; [done|].
    rewrite length_app, Nat2Z.inj_add, IH. unfold filing_rows_of.
    rewrite length_map. lia.
Qed.

(** Property X9.  The column [latest_filing_date] holds the date of a filing
    of the company, and no filing of the company has a greater date. *)
Theorem latest_filing_date_is_greatest (text : list error_loc -> string)
    (w : World) (input : option (list raw_filing)) (o : outputs)
    (c : Company) :
  main_outputs (main text w input) = Some o ->
  c ∈ companies_with_filings o ->
  company_row_of c ∈ companies_csv o
  /\ latest_filing_date (company_row_of c) ∈ map date_received (filings c)
  /\ Forall (fun fl => Text.str_lt (latest_filing_date (company_row_of c))
                         (date_received fl) = false)
       (filings c).
Proof.
  intros H Hc. apply main_outputs_inv in H as (batch & out & w' & -> & Hrun & ->).
  simpl in *. split; [by apply list_elem_of_fmap_2|].
  destruct (emitted_count _ _ _ _ _ _ Hrun Hc) as (_ & Hne & Hdesc).
  unfold dates_descending in Hdesc.
  destruct (filings c) as [|fl fls]; [done|]. simpl.
  split; [left|].
  apply StronglySorted_inv in Hdesc as [_ Hfl].
  constructor; [apply str_lt_irrefl|done].
Qed.

(** Property X10.  When the first loop passes over every filing of the input
    (and when the input is the empty list), [main] writes three empty
    outputs and the record of the run, and then fails: there is no first
    record to print. *)
Theorem main_fails_without_companies (text : list error_loc -> string)
    (w : World) (batch : list raw_filing) :
  Forall rejected batch ->
  main text w (Some batch)
  = WrittenThenIndexError
      {| companies_with_filings := []; companies_csv := []; filings_csv := [] |}
      {| now := now w;
         val_file := Stored (JArr (load_history w ++ [empty_stats w])) |}.
Proof.
  intros Hrej. unfold main, structure_data.
  by rewrite (group_filings_all_rejected batch [] Hrej).
Qed.

(** ** File names of the download stage *)

Lemma sub_cls p r s :
  sub false (Cls p) (String r "") s
  = Text.map_str (fun c => if p c then r else c) s.
Proof.
  unfold sub. generalize (@None ascii) as prev.
  induction s as [|c s IH]; intros prev; simpl; [done|].
  unfold match_here. simpl. destruct (p c); simpl; by rewrite IH.
Qed.

Lemma star_match_span_with p prev s n :
  star_match p prev s n (fun _ _ m => Some m) = Some (n + span_with p s)%nat.
Proof.
  revert prev n; induction s as [|c s IH]; intros prev n; simpl.
  - f_equal. lia.
  - destruct (p c); [|f_equal; lia]. rewrite IH. f_equal. lia.
Qed.

Lemma match_here_plus p prev s :
  match_here false (Plus p) prev s =
  match s with
  | String c s' => if p c then Some (S (span_with p s')) else None
  | EmptyString => None
  end.
Proof.
  unfold match_here, Plus. simpl. destruct s as [|c s]; [done|].
  destruct (p c); [|done]. by rewrite star_match_span_with.
Qed.

Lemma sub_from_plus p r s :
  forall prev,
    sub_from false (Plus p) (String r "") O prev s = collapse_with p r false s
    /\ sub_from false (Plus p) (String r "") (span_with p s) prev s
       = collapse_with p r true s.
Proof.
  induction s as [|c s IH]; intros prev; [done|].
  destruct (IH (Some c)) as [IH1 IH2].
  destruct (p c) eqn:Hc; split.
  - cbn [sub_from collapse_with]. by rewrite match_here_plus, Hc, IH2.
  - cbn [span_with]. rewrite Hc. cbn [sub_from collapse_with]. by rewrite Hc.
  - cbn [sub_from collapse_with]. by rewrite match_here_plus, Hc, IH1.
  - cbn [span_with]. rewrite Hc. cbn [sub_from collapse_with].
    by rewrite match_here_plus, Hc, IH1.
Qed.

(** The substitution of [c+] by one character replaces every run. *)
Lemma sub_plus p r s :
  sub false (Plus p) (String r "") s = collapse_with p r false s.
Proof. apply sub_from_plus. Qed.

Lemma str_Forall_collapse_with (P : ascii -> Prop) p r b s :
  P r -> str_Forall P s -> str_Forall P (collapse_with p r b s).
Proof.
  intros Hr. revert b. induction s as [|c s IH]; intros b; simpl; [done|].
  intros [Hc Hs]. destruct (p c); [destruct b|]; simpl; auto.
Qed.

(** What is left of the class [p] after the substitution is the
    replacement. *)
Lemma collapse_with_class p r b s :
  str_Forall (fun c => p c = false \/ c = r) (collapse_with p r b s).
Proof.
  revert b. induction s as [|c s IH]; intros b; simpl; [done|].
  destruct (p c) eqn:Hc; [destruct b|]; simpl; auto.
Qed.

Lemma take_str_length n s : (String.length (take_str n s) <= n)%nat.
Proof.
  revert s; induction n as [|n IH]; intros [|c s]; simpl; try lia.
  specialize (IH s). lia.
Qed.

Lemma str_Forall_take (P : ascii -> Prop) n s :
  str_Forall P s -> str_Forall P (take_str n s).
Proof.
  revert s; induction n as [|n IH]; intros [|c s]; simpl; try done.
  intros [? ?]. auto.
Qed.

Lemma str_Forall_lstrip_with (P : ascii -> Prop) p s :
  str_Forall P s -> str_Forall P (lstrip_with p s).
Proof.
  induction s as [|c s IH]; simpl; [done|]. intros [Hc Hs].
  destruct (p c); simpl; auto.
Qed.

Lemma str_Forall_rstrip_with (P : ascii -> Prop) p s :
  str_Forall P s -> str_Forall P (rstrip_with p s).
Proof.
  induction s as [|c s IH]; simpl; [done|]. intros [Hc Hs].
  specialize (IH Hs). destruct (rstrip_with p s); simpl in *.
  - destruct (p c); simpl; auto.
  - auto.
Qed.

Lemma rstrip_with_length p s :
  (String.length (rstrip_with p s) <= String.length s)%nat.
Proof.
  induction s as [|c s IH]; simpl; [lia|].
  destruct (rstrip_with p s); simpl in *; [destruct (p c); simpl; lia|lia].
Qed.

Lemma lstrip_with_length p s :
  (String.length (lstrip_with p s) <= String.length s)%nat.
Proof.
  induction s as [|c s IH]; simpl; [lia|]. destruct (p c); simpl; lia.
Qed.

Lemma lstrip_with_head p s :
  match lstrip_with p s with
  | String c _ => p c = false
  | EmptyString => True
  end.
Proof.
  induction s as [|c s IH]; simpl; [done|].
  destruct (p c) eqn:Hc; [done|]. exact Hc.
Qed.

Lemma rstrip_with_head p s :
  match s with String c _ => p c = false | EmptyString => True end ->
  match rstrip_with p s with
  | String c _ => p c = false
  | EmptyString => True
  end.
Proof.
  destruct s as [|c s]; simpl; [done|]. intros Hc.
  destruct (rstrip_with p s); [rewrite Hc|]; done.
Qed.

Lemma rstrip_with_last s :
  ends_with_char "_" (rstrip_with is_underscore s) = false.
Proof.
  induction s as [|c s IH]; simpl; [done|].
  destruct (rstrip_with is_underscore s) as [|d r] eqn:Hr.
  - destruct (is_underscore c) eqn:Hc; [done|]. simpl. exact Hc.
  - exact IH.
Qed.

Lemma sanitize_filename_inv (name : string) :
  let safe_name := sanitize_filename name in
  (String.length safe_name <= 80)%nat
  /\ str_Forall (fun c => forbidden c = false /\ Text.is_space c = false)
       safe_name
  /\ Text.starts_with "_" safe_name = false
  /\ ends_with_char "_" safe_name = false.
Proof.
  unfold sanitize_filename. destruct (Text.is_empty name).
  { repeat split; simpl; lia. }
  cbv zeta. unfold re_forbidden, re_spaces, re_underscores.
  rewrite sub_cls, !sub_plus. unfold strip_with.
  set (s1 := Text.map_str _ name).
  set (s3 := collapse_with is_underscore _ _ _).
  split; [|split; [|split]].
  - etrans; [apply rstrip_with_length|].
    etrans; [apply lstrip_with_length|]. apply take_str_length.
  - apply str_Forall_rstrip_with, str_Forall_lstrip_with, str_Forall_take.
    subst s3. apply str_Forall_collapse_with; [done|].
    assert (H1 : str_Forall (fun c => forbidden c = false) s1).
    { subst s1. apply str_Forall_map. intros c.
      by destruct (forbidden c) eqn:Hc. }
    assert (H2 : str_Forall (fun c => forbidden c = false)
                   (collapse_with Text.is_space "_" false s1))
      by (by apply str_Forall_collapse_with).
    pose proof (collapse_with_class Text.is_space "_" false s1) as H3.
    revert H2 H3. generalize (collapse_with Text.is_space "_" false s1).
    induction s as [|c s IH]; simpl; [done|].
    intros [Hc Hs] [Hc' Hs']. split; [|by apply IH].
    split; [done|]. by destruct Hc' as [?| ->].
  - pose proof (rstrip_with_head is_underscore
                  (lstrip_with is_underscore (take_str 80 s3))
                  (lstrip_with_head _ _)) as Hhead.
    destruct (rstrip_with _ _) as [|c r]; [done|].
    cbn [Text.starts_with]. unfold is_underscore in Hhead.
    by rewrite Ascii.eqb_sym, Hhead.
  - apply rstrip_with_last.
Qed.

(** Property X11.  The name that [sanitize_filename] returns has 80
    characters at most, none of them white space or one of the characters
    that the first substitution replaces (among them the slash and the
    backslash), and it neither starts nor ends with an underscore. *)
Theorem sanitize_filename_safe (name : string) :
  let safe_name := sanitize_filename name in
  (String.length safe_name <= 80)%nat
  /\ str_Forall (fun c => forbidden c = false /\ Text.is_space c = false)
       safe_name
  /\ Text.starts_with "_" safe_name = false
  /\ ends_with_char "_" safe_name = false.
Proof. apply sanitize_filename_inv. Qed.

Lemma collapse_with_all_replaced p r b s :
  str_Forall (fun c => p c = true \/ c = r) s ->
  str_Forall (fun c => c = r) (collapse_with p r b s).
Proof.
  revert b. induction s as [|c s IH]; intros b; simpl; [done|].
  intros [Hc Hs]. destruct (p c) eqn:Hp; [destruct b|]; simpl; auto.
  split; [|auto]. by destruct Hc.
Qed.

Lemma collapse_with_nonempty p r s :
  s <> "" -> collapse_with p r false s <> "".
Proof. destruct s as [|c s]; simpl; [done|]. by destruct (p c). Qed.

Lemma collapse_with_one_run p r s :
  str_Forall (fun c => p c = true) s ->
  collapse_with p r true s = ""
  /\ (s <> "" -> collapse_with p r false s = String r "").
Proof.
  induction s as [|c s IH]; simpl; [done|].
  intros [-> Hs]. destruct (IH Hs) as [IH1 _]. by rewrite IH1.
Qed.

(** Property X12.  A name that is not empty gives the empty string, not
    ["unknown"], when it is made of underscores, white space and replaced
    characters only. *)
Theorem sanitize_filename_can_be_empty (name : string) :
  name <> "" ->
  str_Forall (fun c => forbidden c || Text.is_space c || is_underscore c = true)
    name ->
  sanitize_filename name = "".
Proof.
  intros Hne Hall. unfold sanitize_filename.
  destruct (Text.is_empty name) eqn:He; [by destruct name|]. cbv zeta.
  unfold re_forbidden, re_spaces, re_underscores. rewrite sub_cls, !sub_plus.
  set (s1 := Text.map_str _ name).
  assert (H1 : str_Forall (fun c => Text.is_space c = true \/ c = "_"%char) s1
               /\ s1 <> "").
  { subst s1. split; [|by destruct name].
    clear Hne He. induction name as [|c name IH]; simpl; [done|].
    destruct Hall as [Hc Hall]. split; [|by apply IH].
    destruct (forbidden c); [by right|]. simpl in Hc.
    apply orb_true_iff in Hc as [?|Hc]; [by left|right].
    by apply Ascii.eqb_eq in Hc. }
  destruct H1 as [H1 H1ne].
  pose proof (collapse_with_all_replaced _ _ false _ H1) as H2.
  pose proof (collapse_with_nonempty Text.is_space "_" _ H1ne) as H2ne.
  set (s2 := collapse_with Text.is_space "_" false s1) in *.
  destruct (collapse_with_one_run is_underscore "_" s2) as [_ H3].
  { eapply str_Forall_impl; [|exact H2]. by intros c ->. }
  by rewrite (H3 H2ne).
Qed.

(** ** The download queue *)

Lemma str_Forall_append (P : ascii -> Prop) s1 s2 :
  str_Forall P (s1 +:+ s2) <-> str_Forall P s1 /\ str_Forall P s2.
Proof.
  induction s1 as [|c s1 IH]; simpl; [tauto|]. rewrite IH. tauto.
Qed.

Lemma str_append_assoc s1 s2 s3 : (s1 +:+ s2) +:+ s3 = s1 +:+ (s2 +:+ s3).
Proof.
  induction s1 as [|c s1 IH]; [done|].
  change (String c ((s1 +:+ s2) +:+ s3) = String c (s1 +:+ (s2 +:+ s3))).
  by rewrite IH.
Qed.

Lemma str_of_nat_no_slash idx :
  str_Forall (fun c => c <> "/"%char) (str_of_nat idx).
Proof.
  unfold str_of_nat.
  assert (H : forall d, str_Forall (fun c => c <> "/"%char)
                          (NilEmpty.string_of_uint d)).
  { induction d; simpl; try done; split; done. }
  unfold NilZero.string_of_uint. destruct (Nat.to_uint idx); try apply H.
  simpl. done.
Qed.

Lemma doc_id_no_slash u idx :
  str_Forall (fun c => c <> "/"%char) (doc_id_of u idx).
Proof.
  unfold doc_id_of. destruct (Text.contains "/document/" u).
  - unfold replace_slash. apply str_Forall_map. intros c.
    destruct (Ascii.eqb_spec c "/"); [done|done].
  - apply str_of_nat_no_slash.
Qed.

Lemma sanitize_filename_no_slash name :
  str_Forall (fun c => c <> "/"%char) (sanitize_filename name).
Proof.
  destruct (sanitize_filename_inv name) as (_ & H & _).
  eapply str_Forall_impl; [|exact H]. by intros c [Hc _] ->.
Qed.

Lemma queue_urls_inv name safe_name idx urls e :
  e ∈ queue_urls name safe_name idx urls ->
  url e ∈ urls /\ url e <> "" /\ entry_company_name e = name
  /\ exists i, filename e = safe_name +:+ "_" +:+ doc_id_of (url e) i +:+ ".pdf".
Proof.
  revert idx. induction urls as [|u urls IH]; intros idx; simpl.
  - intros []%elem_of_nil.
  - destruct (Text.is_empty u) eqn:Hu.
    + intros He. destruct (IH _ He) as (? & ? & ? & ?).
      repeat split; [by right|done|done|done].
    + intros [->|He]%elem_of_cons.
      * simpl. repeat split; [left|by destruct u|eauto].
      * destruct (IH _ He) as (? & ? & ? & ?).
        repeat split; [by right|done|done|done].
Qed.

Lemma build_download_queue_inv companies limit e :
  e ∈ build_download_queue companies limit ->
  exists c fl,
    c ∈ companies /\ fl ∈ filings c /\ url e ∈ document_urls fl
    /\ url e <> "" /\ entry_company_name e = entity_name c
    /\ exists i,
         filename e = sanitize_filename (entity_name c) +:+ "_"
                      +:+ doc_id_of (url e) i +:+ ".pdf".
Proof.
  intros He.
  assert (Hin : e ∈ concat (map queue_company companies)).
  { unfold build_download_queue in He. destruct limit as [l|]; [|done].
    destruct (negb (l =? 0)%Z && (0 <? l)%Z); [|done].
    eapply subseteq_take, He. }
  apply elem_of_concat in Hin as (q & Hq & Hc).
  apply list_elem_of_fmap in Hc as (c & -> & Hc).
  unfold queue_company in Hq.
  apply elem_of_concat in Hq as (q' & Hq' & Hfl).
  apply list_elem_of_fmap in Hfl as (fl & -> & Hfl).
  apply queue_urls_inv in Hq' as (Hu & Hne & Hname & Hfile).
  by exists c, fl.
Qed.

(** Property X13.  Every entry of the download queue is a document of a
    filing of one of the companies: its URL is not empty and stands in the
    [document_urls] of the filing, and it carries the name of the company.
    With a positive limit the queue has no more entries than the limit. *)
Theorem download_queue_sound (companies : list Company) (limit : option Z)
    (e : queue_entry) :
  e ∈ build_download_queue companies limit ->
  (exists c fl,
     c ∈ companies /\ fl ∈ filings c /\ url e ∈ document_urls fl
     /\ entry_company_name e = entity_name c)
  /\ url e <> ""
  /\ (forall l, limit = Some l -> (0 < l)%Z ->
        (Z.of_nat (length (build_download_queue companies limit)) <= l)%Z).
Proof.
  intros He.
  destruct (build_download_queue_inv _ _ _ He)
    as (c & fl & Hc & Hfl & Hu & Hne & Hname & _).
  split; [by exists c, fl|]. split; [done|].
  intros l -> Hl. unfold build_download_queue.
  replace (negb (l =? 0)%Z && (0 <? l)%Z) with true.
  - rewrite length_take. lia.
  - symmetry. apply andb_true_iff. split; [|by apply Z.ltb_lt].
    apply negb_true_iff, Z.eqb_neq. lia.
Qed.

(** Property X14.  No file name of the queue contains a slash, and every one
    ends in [.pdf]: joined with the output directory, it names a file of
    that directory itself. *)
Theorem download_queue_filenames (companies : list Company)
    (limit : option Z) (e : queue_entry) :
  e ∈ build_download_queue companies limit ->
  str_Forall (fun c => c <> "/"%char) (filename e)
  /\ exists stem, filename e = stem +:+ ".pdf".
Proof.
  intros He.
  destruct (build_download_queue_inv _ _ _ He)
    as (c & fl & _ & _ & _ & _ & _ & i & ->).
  split.
  - rewrite !str_Forall_append. repeat split; try done.
    + apply sanitize_filename_no_slash.
    + apply doc_id_no_slash.
  - exists (sanitize_filename (entity_name c) +:+ "_" +:+ doc_id_of (url e) i).
    by rewrite !str_append_assoc.
Qed.

(** ** The records of the fetch stage *)

Section FetchFacts.
Variable repr : json -> string.

Lemma py_iter_iterable v :
  match py_iter v with
  | Ok _ => iterable v = true
  | Raise e => iterable v = false /\ e = TypeError
  end.
Proof. by destruct v. Qed.

Lemma clipped_length n s :
  (String.length (if (n <? String.length s)%nat then take_str n s else s)
   <= n)%nat.
Proof.
  destruct (n <? String.length s)%nat eqn:Hlen; [apply take_str_length|].
  by apply Nat.ltb_ge in Hlen.
Qed.

Opaque take_str.

Lemma normalize_filing_inv filing r :
  normalize_filing repr filing = Ok r ->
  exists sid cn dr st dn pd bu fs ca lf du,
    r = filing_of
          [ ("submission_id", PStr sid); ("company_name", PStr cn);
            ("date_received", PStr dr); ("submission_type", PStr st);
            ("docket_number", PStr dn); ("proceeding_description", PStr pd);
            ("bureau", PStr bu); ("filing_status", PStr fs);
            ("contact_attorney", PStr ca); ("law_firm", PStr lf);
            ("document_urls", PStr du);
            ("detail_url",
             PStr (if negb (Text.is_empty sid)
                   then "https://www.fcc.gov/ecfs/filing/" +:+ sid else "")) ]
    /\ sid = safe_get repr (JObj filing) ["id_submission"]
    /\ (String.length dr <= 10)%nat /\ (String.length pd <= 200)%nat.
Proof.
  unfold normalize_filing. intros H.
  bind_inv H as procs Hprocs. bind_inv H as filers Hfilers.
  bind_inv H as authors Hauthors. bind_inv H as lawfirms Hlawfirms.
  bind_inv H as docs Hdocs. injection H as <-.
  do 11 eexists. split; [reflexivity|]. split; [done|]. split.
  - apply clipped_length.
  - apply take_str_length.
Qed.

Transparent take_str.

Lemma fetched_well_typed sid cn dr st dn pd bu fs ca lf du url :
  well_typed
    (filing_of
       [ ("submission_id", PStr sid); ("company_name", PStr cn);
         ("date_received", PStr dr); ("submission_type", PStr st);
         ("docket_number", PStr dn); ("proceeding_description", PStr pd);
         ("bureau", PStr bu); ("filing_status", PStr fs);
         ("contact_attorney", PStr ca); ("law_firm", PStr lf);
         ("document_urls", PStr du); ("detail_url", PStr url) ]).
Proof.
  unfold well_typed, str_or_missing.
  repeat split; try (vm_compute; exact I).
  exists dr. vm_compute. reflexivity.
Qed.

Lemma normalize_all_well_typed api batch :
  normalize_all repr api = Ok batch -> Forall well_typed batch.
Proof.
  revert batch; induction api as [|f api IH]; intros batch; simpl.
  - intros [= <-]. constructor.
  - intros H. bind_inv H as r Hr. bind_inv H as rs Hrs. injection H as <-.
    constructor; [|by apply IH].
    apply normalize_filing_inv in Hr
      as (sid & cn & dr & st & dn & pd & bu & fs & ca & lf & du & -> & _).
    apply fetched_well_typed.
Qed.

End FetchFacts.

(** Property X15.  The records that the fetch stage writes never make the
    structuring pass fail: when [normalize_filing] returns for every filing
    of the API, [structure_data] returns on the batch of its results. *)
Theorem fetched_batch_structures (repr : json -> string)
    (text : list error_loc -> string) (w : World)
    (api : list (list (string * json))) (batch : list raw_filing) :
  normalize_all repr api = Ok batch ->
  exists out w', structure_data text w batch = Ok (out, w').
Proof.
  intros H. apply structure_data_total.
  by eapply normalize_all_well_typed.
Qed.

(** Property X16.  In a record of the fetch stage [date_received] has 10
    characters at most and [proceeding_description] 200; [detail_url] is the
    address of the filing, or the empty string when the filing has no
    [id_submission]. *)
Theorem normalize_filing_fields (repr : json -> string)
    (filing : list (string * json)) (r : raw_filing) :
  normalize_filing repr filing = Ok r ->
  exists date descr,
    r !! "date_received" = Some (PStr date)
    /\ (String.length date <= 10)%nat
    /\ r !! "proceeding_description" = Some (PStr descr)
    /\ (String.length descr <= 200)%nat
    /\ r !! "submission_id"
       = Some (PStr (safe_get repr (JObj filing) ["id_submission"]))
    /\ r !! "detail_url"
       = Some (PStr (if Text.is_empty
                          (safe_get repr (JObj filing) ["id_submission"])
                     then ""
                     else "https://www.fcc.gov/ecfs/filing/"
                          +:+ safe_get repr (JObj filing) ["id_submission"])).
Proof.
  intros H. apply normalize_filing_inv in H
    as (sid & cn & dr & st & dn & pd & bu & fs & ca & lf & du & -> & <- & Hdr
        & Hpd).
  exists dr, pd.
  repeat split; try done; try (vm_compute; reflexivity).
  destruct (Text.is_empty sid); vm_compute; reflexivity.
Qed.

(** Property X17.  [normalize_filing] returns exactly when each of the
    fields [proceedings], [filers], [authors], [lawfirms] and [documents] is
    absent or holds a list, a string or a dictionary; otherwise the loop
    over a value that is not iterable raises [TypeError]. *)
Theorem normalize_filing_returns (repr : json -> string)
    (filing : list (string * json)) :
  if forallb (fun key => iterable (default (JArr []) (dict_get key filing)))
       list_fields
  then exists r, normalize_filing repr filing = Ok r
  else normalize_filing repr filing = Raise TypeError.
Proof.
  unfold normalize_filing, get_list, list_fields. cbn [forallb].
  repeat
    match goal with
    | |- context [py_iter ?v] =>
        let H := fresh "H" in
        pose proof (py_iter_iterable v) as H;
        destruct (py_iter v);
        [rewrite H | destruct H as [-> ->]; cbn [rbind andb];
                     rewrite ?andb_false_r; reflexivity];
        cbn [rbind andb]
    end.
  eauto.
Qed.

(** ** Where the emitted records come from *)

(** The cluster of an emitted company: filings of the batch that the
    first loop accepted. *)
Lemma emitted_cluster text w batch out w' c :
  structure_data text w batch = Ok (out, w') -> c ∈ out ->
  exists name fs,
    assemble name fs = Ok (Emitted c)
    /\ Forall (fun f => f ∈ batch /\ exists k, accepted f k) fs.
Proof.
  intros H Hc. pose proof H as Hrun.
  apply structure_data_inv in H as (grouped & _ & Hg & Hout & _).
  rewrite Forall_forall in Hout.
  destruct (Hout c Hc) as (name & fs & Hin & Hemit).
  exists name, fs. split; [done|].
  destruct (group_filings_inv _ _ _ Hg) as (Hnd & Hfil & _).
  destruct (deduplicate_inv grouped (Hnd (NoDup_nil_2))) as (Hperm & _).
  apply Forall_forall. intros f Hf.
  assert (Hf' : f ∈ group_filings_of (deduplicate grouped)).
  { unfold group_filings_of.
    clear -Hin Hf. induction (deduplicate grouped) as [|[k l] g IH];
      [by apply elem_of_nil in Hin|].
    simpl. apply elem_of_app.
    apply elem_of_cons in Hin as [[= <- <-]|Hin]; [by left|right; by apply IH]. }
  rewrite Hperm in Hf'.
  destruct (Hfil f Hf') as [[]%elem_of_nil|?]. done.
Qed.

Lemma process_filing_record f r :
  process_filing f = Ok r ->
  fr_filing_id r = get f "submission_id"
  /\ fr_date_received r = get f "date_received"
  /\ fr_docket_number r = get f "docket_number"
  /\ fr_submission_type r = get f "submission_type"
  /\ fr_filing_status r = get f "filing_status"
  /\ fr_detail_url r = get f "detail_url".
Proof.
  unfold process_filing. intros H. bind_inv H as urls Hurls.
  by injection H as <-.
Qed.

(** Property X18.  Every filing of an emitted company is the record of a raw
    filing of the batch that the first loop accepted: its identifier, date,
    docket, type, status and address are the fields of that raw filing. *)
Theorem filings_come_from_batch (text : list error_loc -> string) (w : World)
    (batch : list raw_filing) out w' (c : Company) (fl : Filing) :
  structure_data text w batch = Ok (out, w') ->
  c ∈ out -> fl ∈ filings c ->
  exists f,
    f ∈ batch /\ (exists k, accepted f k)
    /\ get f "submission_id" = PStr (filing_id fl)
    /\ get f "date_received" = PStr (date_received fl)
    /\ get f "docket_number" = PStr (docket_number fl)
    /\ get f "submission_type" = PStr (submission_type fl)
    /\ get f "filing_status" = PStr (filing_status fl)
    /\ get f "detail_url" = PStr (detail_url fl).
Proof.
  intros H Hc Hfl.
  destruct (emitted_cluster _ _ _ _ _ _ H Hc) as (name & fs & Hemit & Hfs).
  apply assemble_emitted in Hemit
    as (primary & processed & sorted & vfs & _ & _ & _ & Hproc & Hsort
        & Hval & ->).
  simpl in Hfl.
  apply validate_filings_Forall2, Forall2_flip in Hval.
  destruct (Forall2_elem_l _ _ _ _ Hval Hfl) as (r & Hr & Hrfl).
  apply py_sort_perm in Hsort. rewrite Hsort in Hr.
  apply process_filings_Forall2, Forall2_flip in Hproc.
  destruct (Forall2_elem_l _ _ _ _ Hproc Hr) as (f & Hf & Hfr).
  rewrite Forall_forall in Hfs. destruct (Hfs f Hf) as [Hb Hacc].
  exists f. split; [done|]. split; [done|].
  apply process_filing_record in Hfr as (<- & <- & <- & <- & <- & <-).
  by apply validate_filing_fields in Hrfl as (? & ? & ? & ? & ? & ? & _).
Qed.

Lemma max_by_len_spec best names p :
  max_by_len best (String.length best) names = Ok p ->
  (p = best \/ PStr p ∈ names)
  /\ (String.length best <= String.length p)%nat
  /\ (forall s, PStr s ∈ names -> (String.length s <= String.length p)%nat).
Proof.
  revert best. induction names as [|v names IH]; intros best; simpl.
  - intros [= <-]. split; [by left|]. split; [lia|].
    by intros s []%elem_of_nil.
  - intros H. bind_inv H as n Hn. destruct v as [|s|]; try discriminate.
    injection Hn as <-.
    destruct (String.length best <? String.length s)%nat eqn:Hlt.
    + apply Nat.ltb_lt in Hlt. apply IH in H as ([->|Hin] & Hle & Hall).
      * split; [right; left|]. split; [lia|].
        intros s' [[= ->]|Hs']%elem_of_cons; [lia|by apply Hall].
      * split; [right; by right|]. split; [lia|].
        intros s' [[= ->]|Hs']%elem_of_cons; [lia|by apply Hall].
    + apply Nat.ltb_ge in Hlt. apply IH in H as (Hp & Hle & Hall).
      split; [destruct Hp; [by left|right; by right]|]. split; [done|].
      intros s' [[= ->]|Hs']%elem_of_cons; [lia|by apply Hall].
Qed.

Lemma NoDup_keys_unique {A} (l : list (string * A)) k (a b : A) :
  NoDup (map fst l) -> (k, a) ∈ l -> (k, b) ∈ l -> a = b.
Proof.
  induction l as [|[k' x] l IH]; simpl; [by intros _ []%elem_of_nil|].
  intros [Hk Hnd]%NoDup_cons [[= -> ->]|Ha]%elem_of_cons [[= ->]|Hb]%elem_of_cons.
  - done.
  - destruct Hk. apply list_elem_of_fmap. by exists (k', b).
  - destruct Hk. apply list_elem_of_fmap. by exists (k', a).
  - by apply IH.
Qed.

(** The cluster of an emitted company in the deduplicated dictionary. *)
Lemma emitted_cluster_of text w batch out w' c :
  structure_data text w batch = Ok (out, w') -> c ∈ out ->
  exists grouped fs,
    group_filings batch [] = Ok grouped
    /\ NoDup (group_keys (deduplicate grouped))
    /\ (normalized_name c, fs) ∈ deduplicate grouped
    /\ assemble (normalized_name c) fs = Ok (Emitted c).
Proof.
  intros H Hc.
  apply structure_data_inv in H as (grouped & _ & Hg & Hout & _).
  rewrite Forall_forall in Hout.
  destruct (Hout c Hc) as (name & fs & Hin & Hemit).
  destruct (group_filings_inv _ _ _ Hg) as (Hnd & _ & _).
  destruct (deduplicate_inv grouped (Hnd (NoDup_nil_2))) as (_ & _ & Hnd').
  exists grouped, fs. split; [done|]. split; [done|].
  pose proof Hemit as Hc'.
  apply assemble_emitted in Hc' as (? & ? & ? & ? & _ & _ & _ & _ & _ & _ & ->).
  by simpl.
Qed.

(** Property X19.  The company returned for a key comes from the cluster of
    that key in the deduplicated dictionary, and from no other filings: its
    [filings] are the records of the filings of the cluster, sorted and
    validated, and its [filing_count] is their number.  Its [entity_name]
    is the name, as it stands in the batch, of one of the filings of that
    cluster, and no filing of the cluster has a longer name. *)
Theorem entity_name_is_longest (text : list error_loc -> string) (w : World)
    (batch : list raw_filing) out w' (c : Company) :
  structure_data text w batch = Ok (out, w') ->
  c ∈ out ->
  exists (grouped : groups) (cluster : list raw_filing)
         (processed sorted : list filing_record),
    group_filings batch [] = Ok grouped
    /\ (normalized_name c, cluster) ∈ deduplicate grouped
    /\ (forall other, (normalized_name c, other) ∈ deduplicate grouped ->
          other = cluster)
    /\ process_filings cluster = Ok processed
    /\ py_sort fr_date_received true processed = Ok sorted
    /\ validate_filings sorted = Some (filings c)
    /\ filing_count c = Z.of_nat (length cluster)
    /\ (exists f, f ∈ cluster
          /\ get_or f "company_name" (PStr "") = PStr (entity_name c))
    /\ Forall (fun f => forall s,
                 get_or f "company_name" (PStr "") = PStr s ->
                 (String.length s <= String.length (entity_name c))%nat)
         cluster.
Proof.
  intros H Hc.
  destruct (emitted_cluster_of _ _ _ _ _ _ H Hc)
    as (grouped & fs & Hg & Hnd & Hin & Hemit).
  pose proof Hemit as Hparts.
  apply assemble_emitted in Hparts
    as (primary & processed & sorted & vfs & Hprim & _ & Happ & Hproc & Hsort
        & Hval & Hceq).
  exists grouped, fs, processed, sorted.
  split; [done|]. split; [done|].
  split.
  { intros other Hother. by apply (NoDup_keys_unique _ _ _ _ Hnd Hother Hin). }
  split; [done|]. split; [done|].
  assert (Hfil : filings c = vfs) by (by rewrite Hceq).
  assert (Hcount : filing_count c = Z.of_nat (length sorted))
    by (by rewrite Hceq).
  assert (Hname : entity_name c = primary) by (by rewrite Hceq).
  rewrite Hfil, Hcount, Hname. clear Hceq Hfil Hcount Hname.
  split; [done|]. split.
  { apply process_filings_Forall2, Forall2_length in Hproc.
    apply py_sort_perm, Permutation_length in Hsort. by rewrite Hproc, Hsort. }
  destruct fs as [|f0 fs]; [discriminate|].
  simpl in Hprim. bind_inv Hprim as n Hn.
  destruct (get_or f0 "company_name" (PStr "")) as [|s0|] eqn:Hs0;
    try discriminate.
  injection Hn as <-.
  apply max_by_len_spec in Hprim as (Hp & Hle & Hall). split.
  - destruct Hp as [->|Hin']; [exists f0; split; [left|done]|].
    apply list_elem_of_fmap in Hin' as (f & Hf & Hin').
    exists f. split; [by right|done].
  - constructor.
    + intros s Hs. rewrite Hs0 in Hs. by injection Hs as <-.
    + apply Forall_forall. intros f Hf s Hs. apply Hall.
      apply list_elem_of_fmap. by exists f.
Qed.

(** ** The format of the identifiers *)

Section UuidFacts.
Local Open Scope N_scope.

Lemma sha1_bytes msg :
  exists h0 h1 h2 h3 h4,
    Uuid.sha1 msg
    = (Uuid.be_bytes 4 h0 ++ Uuid.be_bytes 4 h1 ++ Uuid.be_bytes 4 h2
       ++ Uuid.be_bytes 4 h3 ++ Uuid.be_bytes 4 h4)%list.
Proof.
  unfold Uuid.sha1.
  destruct (fold_left _ _ _) as [[[[h0 h1] h2] h3] h4].
  by exists h0, h1, h2, h3, h4.
Qed.

Lemma below_16 (P : N -> Prop) :
  (forall k, (k < 16)%nat -> P (N.of_nat k)) -> forall y, y < 16 -> P y.
Proof.
  intros HP y Hy. rewrite <- (N2Nat.id y). apply HP. lia.
Qed.

Lemma hex_digit_is_hex d : d < 16 -> is_hex (Uuid.hex_digit d) = true.
Proof.
  revert d. apply below_16. intros k Hk.
  do 16 (destruct k as [|k]; [reflexivity|]). lia.
Qed.

Lemma land_255 x : N.land x 255 < 256.
Proof.
  change 255 with (N.ones 8). rewrite N.land_ones.
  apply N.mod_upper_bound. discriminate.
Qed.

Lemma hex_high b : b < 256 -> is_hex (Uuid.hex_digit (b / 16)) = true.
Proof.
  intros Hb. apply hex_digit_is_hex.
  apply N.Div0.div_lt_upper_bound. lia.
Qed.

Lemma hex_low b : is_hex (Uuid.hex_digit (b mod 16)) = true.
Proof. apply hex_digit_is_hex, N.mod_upper_bound. discriminate. Qed.

(** The byte that carries the version. *)
Lemma version_byte x :
  let b := N.lor (N.land x 15) 80 in
  b < 256 /\ Uuid.hex_digit (b / 16) = "5"%char.
Proof.
  change 15 with (N.ones 4). rewrite N.land_ones.
  assert (Hy : x mod 2 ^ 4 < 16) by (apply N.mod_upper_bound; discriminate).
  revert Hy. generalize (x mod 2 ^ 4). apply below_16. intros k Hk.
  do 16 (destruct k as [|k]; [split; reflexivity|]). lia.
Qed.

(** The byte that carries the variant. *)
Lemma variant_byte x :
  let b := N.lor (N.land x 63) 128 in
  b < 256
  /\ (Uuid.hex_digit (b / 16) = "8"%char \/ Uuid.hex_digit (b / 16) = "9"%char
      \/ Uuid.hex_digit (b / 16) = "a"%char
      \/ Uuid.hex_digit (b / 16) = "b"%char).
Proof.
  change 63 with (N.ones 6). rewrite N.land_ones.
  assert (Hy : x mod 2 ^ 6 < 64) by (apply N.mod_upper_bound; discriminate).
  revert Hy. generalize (x mod 2 ^ 6). intros y Hy.
  rewrite <- (N2Nat.id y). assert (Hk : (N.to_nat y < 64)%nat) by lia.
  revert Hk. generalize (N.to_nat y). intros k Hk.
  do 64 (destruct k as [|k];
         [split; [reflexivity|];
          first [left; reflexivity | right; left; reflexivity
                | right; right; left; reflexivity
                | right; right; right; reflexivity]|]).
  lia.
Qed.

End UuidFacts.

(** Property X20.  The identifier of a company is the text of a version 5
    UUID: 36 characters, hyphens at the positions 8, 13, 18 and 23 and lower
    case hexadecimal digits elsewhere, the digit 5 at position 14 and one of
    8, 9, a, b at position 19. *)
Theorem company_id_format (normalized_name : string) :
  let i := generate_company_id normalized_name in
  String.length i = 36%nat
  /\ str_Forall (fun c => c = "-"%char \/ is_hex c = true) i
  /\ String.get 8 i = Some "-"%char /\ String.get 13 i = Some "-"%char
  /\ String.get 18 i = Some "-"%char /\ String.get 23 i = Some "-"%char
  /\ String.get 14 i = Some "5"%char
  /\ exists v, String.get 19 i = Some v
       /\ (v = "8" \/ v = "9" \/ v = "a" \/ v = "b")%char.
Proof.
  unfold generate_company_id, Uuid.uuid5.
  destruct (sha1_bytes (Uuid.NAMESPACE ++ Uuid.encode normalized_name))
    as (h0 & h1 & h2 & h3 & h4 & ->).
  cbv [Uuid.be_bytes app firstn Uuid.set_version lookup list_lookup
       insert list_insert].
  repeat match goal with
         | |- context [N.land (N.shiftr ?h ?n) 255] =>
             let b := fresh "b" in
             let Hb := fresh "Hb" in
             pose proof (land_255 (N.shiftr h n)) as Hb;
             set (b := N.land (N.shiftr h n) 255) in *; clearbody b
         end.
  repeat match goal with
         | |- context [N.lor (N.land ?x 15) 80] =>
             let c := fresh "ver" in
             destruct (version_byte x) as [? ?];
             set (c := N.lor (N.land x 15) 80) in *; clearbody c
         | |- context [N.lor (N.land ?x 63) 128] =>
             let c := fresh "var" in
             destruct (variant_byte x) as [? ?];
             set (c := N.lor (N.land x 63) 128) in *; clearbody c
         end.
  cbv [Uuid.uuid_str Uuid.hex firstn skipn String.append].
  cbv zeta. split; [reflexivity|]. split.
  { cbn [str_Forall].
    repeat split; try (by left); right;
      first [by apply hex_low | by apply hex_high]. }
  do 4 (split; [reflexivity|]).
  split; [cbn [String.get]; by f_equal|].
  eexists. split; [reflexivity|]. done.
Qed.

(** ** The exclusion patterns *)

Lemma lit_match_starts_with l prev s n :
  lit_match false l prev s n (fun _ _ m => Some m)
  = if Text.starts_with l s then Some (n + String.length l)%nat else None.
Proof.
  revert prev s n. induction l as [|a l IH]; intros prev s n.
  - cbn [lit_match Text.starts_with String.length]. f_equal. lia.
  - destruct s as [|b s]; cbn [lit_match Text.starts_with String.length];
      [done|].
    unfold chr_eq. destruct (Ascii.eqb a b); [|done].
    rewrite IH. destruct (Text.starts_with l s); [|done]. f_equal. lia.
Qed.

(** Searching for a literal text is the test [in]. *)
Lemma search_literal l s : search false (Lit l) s = Text.contains l s.
Proof.
  unfold search. generalize (@None ascii) as prev.
  induction s as [|c s IH]; intros prev;
    cbn [search_from Text.contains]; unfold match_here;
    cbn [rmatch]; rewrite lit_match_starts_with.
  - by destruct (Text.starts_with l "").
  - destruct (Text.starts_with l (String c s)); [done|]. apply IH.
Qed.

Lemma search_from_bol_later r c s :
  search_from false (Seq Bol r) (Some c) s = false.
Proof.
  revert c; induction s as [|d s IH]; intros c; simpl; [done|]. apply IH.
Qed.

Lemma search_fcc s :
  search false (seqs [Bol; Lit "fcc"; WordB]) s
  = Text.starts_with "fcc" s && negb (word_after (Text.drop 3 s)).
Proof.
  unfold search.
  assert (Hhere : match_here false (seqs [Bol; Lit "fcc"; WordB]) None s
                  = if Text.starts_with "fcc" s
                       && negb (word_after (Text.drop 3 s))
                    then Some 3%nat else None).
  { unfold match_here. cbn [seqs rmatch].
    destruct s as [|a [|b [|c r]]]; cbn [lit_match Text.starts_with];
      unfold chr_eq; try done.
    - by destruct (Ascii.eqb "f" a).
    - destruct (Ascii.eqb "f" a); [|done]. by destruct (Ascii.eqb "c" b).
    - destruct (Ascii.eqb "f" a); [|done].
      destruct (Ascii.eqb "c" b); [|done].
      destruct (Ascii.eqb_spec "c"%char c) as [<-|]; [|done].
      cbn [lit_match Text.drop word_before andb].
      change (Text.is_word "c") with true.
      by destruct (word_after r). }
  destruct s as [|c s]; cbn [search_from]; rewrite Hhere.
  - done.
  - destruct (Text.starts_with "fcc" (String c s)
              && negb (word_after (Text.drop 3 (String c s)))); [done|].
    apply search_from_bol_later.
Qed.

(** Property X21.  An ASCII name is excluded exactly when its lower case
    form contains one of the five fragments of the institutions, or starts
    with [fcc] as a word of its own: followed by the end of the name or by
    a character that is no letter, digit or underscore.  (In a name with
    other characters Python may take the character after [fcc] for a
    letter, which the model does not know: such names are left out.) *)
Theorem should_exclude_characterised (name : string) :
  Text.isascii name = true ->
  should_exclude name
  = existsb (fun fragment => Text.contains fragment (Text.lower name))
      excluded_fragments
    || Text.starts_with "fcc" (Text.lower name)
       && negb (word_after (Text.drop 3 (Text.lower name))).
Proof.
  intros _.
  unfold should_exclude, EXCLUDE_PATTERNS, excluded_fragments.
  cbn [existsb]. rewrite !search_literal, search_fcc.
  generalize (Text.lower name). intros s.
  destruct (Text.contains "wireline competition bureau" s); [done|].
  destruct (Text.starts_with "fcc" s && negb (word_after (Text.drop 3 s)));
    cbn [orb]; [by rewrite !orb_true_r|by rewrite !orb_false_r].
Qed.

(** ** Clusters that are emitted *)

Lemma any_application_exists fs :
  Forall well_typed fs ->
  (exists f, f ∈ fs /\ is_application_type f = Ok true) ->
  any_application fs = Ok true.
Proof.
  induction 1 as [|f fs Hf Hfs IH]; intros (g & Hg & Happ).
  - by apply elem_of_nil in Hg.
  - simpl. apply elem_of_cons in Hg as [->|Hg].
    + by rewrite Happ.
    + destruct (any_application_total [f]) as [b Hb];
        [by constructor|].
      simpl in Hb. destruct (is_application_type f) as [[]|]; simpl in *;
        [done| |discriminate].
      apply IH. by exists g.
Qed.

Lemma complete_record f r :
  complete f -> process_filing f = Ok r ->
  filing_errors r = [] /\ exists fl, validate_filing r = Some fl.
Proof.
  intros (Hty & [i Hi] & [k Hk] & [t Ht] & [s Hs] & [u Hu]) Hr.
  destruct Hty as (_ & _ & _ & _ & _ & d & Hd).
  apply process_filing_record in Hr as (Hri & Hrd & Hrk & Hrt & Hrs & Hru).
  unfold get in *. rewrite ?Hi, ?Hd, ?Hk, ?Ht, ?Hs, ?Hu in *.
  unfold filing_errors, validate_filing.
  rewrite Hri, Hrd, Hrk, Hrt, Hrs, Hru. simpl. eauto.
Qed.

Lemma valid_records rs i :
  Forall (fun r => filing_errors r = []
                   /\ exists fl, validate_filing r = Some fl) rs ->
  filings_errors i rs = [] /\ exists fs, validate_filings rs = Some fs.
Proof.
  intros H. revert i.
  induction H as [|r rs [He [fl Hfl]] Hrs IH]; intros i; simpl; [eauto|].
  destruct (IH (S i)) as [-> [fs ->]]. rewrite He, Hfl. simpl. eauto.
Qed.

(** Property X22.  A cluster of filings that carry every field of the
    schema, one of them an application, none under the name of an
    individual, is emitted as a company: an applicant of type [Company]
    under the key of the cluster, with one record per filing. *)
Theorem complete_cluster_emitted (name : string) (fs : list raw_filing) :
  Forall complete fs ->
  (exists f, f ∈ fs /\ is_application_type f = Ok true) ->
  Forall (fun f => forall s,
            get_or f "company_name" (PStr "") = PStr s ->
            is_likely_individual s = false) fs ->
  exists c,
    assemble name fs = Ok (Emitted c)
    /\ normalized_name c = name
    /\ is_applicant c = true
    /\ entity_type c = "Company"
    /\ filing_count c = Z.of_nat (length fs)
    /\ length (filings c) = length fs.
Proof.
  intros Hc Happ Hind.
  assert (Hty : Forall well_typed fs).
  { eapply Forall_impl; [exact Hc|]. by intros f [? _]. }
  unfold assemble.
  assert (Hp : exists p,
             primary_name_of name
               (map (fun f => get_or f "company_name" (PStr "")) fs) = Ok p
             /\ is_likely_individual p = false).
  { destruct Happ as (g & Hg & _).
    destruct fs as [|f fs]; [by apply elem_of_nil in Hg|].
    apply Forall_cons in Hty as [Hf Hfs]. apply Forall_cons in Hind as [Hi His].
    simpl.
    destruct Hf as (_ & _ & Hname & _).
    apply str_or_missing_get_or in Hname as [s Hs]. rewrite Hs. simpl.
    destruct (max_by_len_total s (String.length s)
                (map (fun f => get_or f "company_name" (PStr "")) fs))
      as [p Hmax].
    { apply Forall_fmap. eapply Forall_impl; [exact Hfs|].
      intros h (_ & _ & Hh & _). by apply str_or_missing_get_or. }
    exists p. split; [done|].
    apply max_by_len_spec in Hmax as ([->|Hin] & _); [by apply Hi|].
    apply list_elem_of_fmap in Hin as (h & Hh & Hin).
    rewrite Forall_forall in His. by apply (His h). }
  destruct Hp as (p & -> & Hperson). cbn [rbind].
  rewrite (any_application_exists fs Hty Happ). cbn [rbind].
  destruct (process_filings_total fs Hty) as (rs & Hproc & Hrs).
  rewrite Hproc. cbn [rbind].
  destruct (py_sort_total fr_date_received true rs Hrs) as [sorted Hsort].
  rewrite Hsort. cbn [rbind]. rewrite Hperson. cbn [andb negb].
  pose proof (process_filings_Forall2 _ _ Hproc) as Hrec.
  pose proof (py_sort_perm _ _ _ _ Hsort) as Hperm.
  assert (Hvalid : Forall (fun r => filing_errors r = []
                     /\ exists fl, validate_filing r = Some fl) sorted).
  { rewrite Hperm. apply Forall_forall. intros r Hr.
    pose proof Hrec as Hflip. apply Forall2_flip in Hflip.
    destruct (Forall2_elem_l _ _ _ _ Hflip Hr) as (f & Hf & Hfr).
    rewrite Forall_forall in Hc. by apply (complete_record f r (Hc f Hf)). }
  destruct (valid_records sorted 0 Hvalid) as [Herr [vfs Hvfs]].
  unfold validate_company, company_errors. cbn [cr_filing_count cr_filings].
  rewrite Herr, Hvfs.
  destruct (Z.ltb_spec (Z.of_nat (length sorted)) 0) as [Hneg|_]; [lia|].
  cbn [app]. eexists. split; [done|]. cbn.
  apply Forall2_length in Hrec. apply Permutation_length in Hperm.
  apply validate_filings_Forall2, Forall2_length in Hvfs.
  repeat split; try done; [f_equal|]; lia.
Qed.

(** ** The further properties on the sample runs *)

Lemma deduplicate_conserves_filings_witness :
  group_filings_of (deduplicate sample_groups) ≡ₚ group_filings_of sample_groups
  /\ group_keys (deduplicate sample_groups) `sublist_of` group_keys sample_groups
  /\ NoDup (group_keys (deduplicate sample_groups)).
Proof.
  apply (deduplicate_conserves_filings sample_groups).
  apply (bool_decide_unpack _). vm_compute. reflexivity.
Defined.

Lemma one_company_per_key_witness :
  NoDup (map normalized_name [sample_company]).
Proof.
  apply (one_company_per_key sample_text sample_world sample_batch
           [sample_company] sample_world_after).
  vm_compute. reflexivity.
Defined.

Lemma normalized_name_provenance_witness :
  exists f, f ∈ sample_batch /\ accepted f (normalized_name sample_company).
Proof.
  apply (normalized_name_provenance sample_text sample_world sample_batch
           [sample_company] sample_world_after sample_company);
    [vm_compute; reflexivity | left].
Defined.

Lemma structure_data_returns_witness :
  exists out w', structure_data sample_text sample_world sample_batch
                 = Ok (out, w').
Proof.
  apply (structure_data_returns sample_text sample_world sample_batch).
  repeat (match goal with |- Forall _ _ => constructor end);
    vm_compute; repeat split; eexists; reflexivity.
Defined.

Lemma unusable_name_dropped_witness :
  structure_data sample_text sample_world (sample_batch ++ fcc_filing :: [])
  = structure_data sample_text sample_world (sample_batch ++ []).
Proof.
  apply (unusable_name_dropped sample_text sample_world sample_batch []
           fcc_filing).
  - vm_compute. reflexivity.
  - exists " Federal Communications Commission ".
    split; [vm_compute; reflexivity|]. left. vm_compute. reflexivity.
Defined.

Lemma nothing_accepted_nothing_emitted_witness :
  structure_data sample_text sample_world rejected_batch
  = Ok ([], {| now := now sample_world;
               val_file := Stored (JArr (load_history sample_world
                                         ++ [empty_stats sample_world])) |}).
Proof.
  apply (nothing_accepted_nothing_emitted sample_text sample_world
           rejected_batch).
  constructor; [left; vm_compute; reflexivity|].
  constructor; [|constructor].
  right. split; [vm_compute; reflexivity|].
  exists " Federal Communications Commission ".
  split; [vm_compute; reflexivity|]. left. vm_compute. reflexivity.
Defined.

Lemma tables_consistent_witness :
  let o := write_outputs [sample_company] in
  length (companies_csv o) = length (companies_with_filings o)
  /\ Forall (fun row => company_id row ∈ map row_id (companies_csv o))
       (filings_csv o)
  /\ Z.of_nat (length (filings_csv o))
     = foldr Z.add 0%Z (map row_filing_count (companies_csv o)).
Proof.
  apply (tables_consistent sample_text sample_world (Some sample_batch)
           (write_outputs [sample_company])).
  vm_compute. reflexivity.
Defined.

Lemma latest_filing_date_is_greatest_witness :
  let o := write_outputs [sample_company] in
  company_row_of sample_company ∈ companies_csv o
  /\ latest_filing_date (company_row_of sample_company)
     ∈ map date_received (filings sample_company)
  /\ Forall (fun fl => Text.str_lt
                         (latest_filing_date (company_row_of sample_company))
                         (date_received fl) = false)
       (filings sample_company).
Proof.
  apply (latest_filing_date_is_greatest sample_text sample_world
           (Some sample_batch) (write_outputs [sample_company]) sample_company);
    [vm_compute; reflexivity | left].
Defined.

Lemma main_fails_without_companies_witness :
  main sample_text sample_world (Some rejected_batch)
  = WrittenThenIndexError
      {| companies_with_filings := []; companies_csv := []; filings_csv := [] |}
      {| now := now sample_world;
         val_file := Stored (JArr (load_history sample_world
                                   ++ [empty_stats sample_world])) |}.
Proof.
  apply (main_fails_without_companies sample_text sample_world rejected_batch).
  constructor; [left; vm_compute; reflexivity|].
  constructor; [|constructor].
  right. split; [vm_compute; reflexivity|].
  exists " Federal Communications Commission ".
  split; [vm_compute; reflexivity|]. left. vm_compute. reflexivity.
Defined.

Lemma sanitize_filename_can_be_empty_witness :
  sanitize_filename "?? _/ *" = "".
Proof.
  apply (sanitize_filename_can_be_empty "?? _/ *"); [discriminate|].
  vm_compute. repeat split.
Defined.

Lemma download_queue_sound_witness :
  (exists c fl,
     c ∈ [sample_company] /\ fl ∈ filings c
     /\ url sample_entry ∈ document_urls fl
     /\ entry_company_name sample_entry = entity_name c)
  /\ url sample_entry <> ""
  /\ (forall l, Some 5%Z = Some l -> (0 < l)%Z ->
        (Z.of_nat (length (build_download_queue [sample_company] (Some 5%Z)))
         <= l)%Z).
Proof.
  apply (download_queue_sound [sample_company] (Some 5%Z) sample_entry).
  vm_compute. left.
Defined.

Lemma download_queue_filenames_witness :
  str_Forall (fun c => c <> "/"%char) (filename sample_entry)
  /\ exists stem, filename sample_entry = stem +:+ ".pdf".
Proof.
  apply (download_queue_filenames [sample_company] None sample_entry).
  vm_compute. left.
Defined.

Lemma fetched_batch_structures_witness :
  exists out w', structure_data sample_text sample_world [api_record]
                 = Ok (out, w').
Proof.
  apply (fetched_batch_structures sample_repr sample_text sample_world
           [api_filing] [api_record]).
  vm_compute. reflexivity.
Defined.

Lemma normalize_filing_fields_witness :
  exists date descr,
    api_record !! "date_received" = Some (PStr date)
    /\ (String.length date <= 10)%nat
    /\ api_record !! "proceeding_description" = Some (PStr descr)
    /\ (String.length descr <= 200)%nat
    /\ api_record !! "submission_id"
       = Some (PStr (safe_get sample_repr (JObj api_filing) ["id_submission"]))
    /\ api_record !! "detail_url"
       = Some (PStr (if Text.is_empty
                          (safe_get sample_repr (JObj api_filing)
                             ["id_submission"])
                     then ""
                     else "https://www.fcc.gov/ecfs/filing/"
                          +:+ safe_get sample_repr (JObj api_filing)
                                ["id_submission"])).
Proof.
  apply (normalize_filing_fields sample_repr api_filing api_record).
  vm_compute. reflexivity.
Defined.

Lemma filings_come_from_batch_witness :
  exists f,
    f ∈ sample_batch /\ (exists k, accepted f k)
    /\ get f "submission_id" = PStr "104"
    /\ get f "date_received" = PStr "2023-06-01"
    /\ get f "docket_number" = PStr "INBOX-52.15"
    /\ get f "submission_type" = PStr "APPLICATION"
    /\ get f "filing_status" = PStr "DISSEMINATED"
    /\ get f "detail_url" = PStr "u104".
Proof.
  apply (filings_come_from_batch sample_text sample_world sample_batch
           [sample_company] sample_world_after sample_company
           {| filing_id := "104"; date_received := "2023-06-01";
              docket_number := "INBOX-52.15"; submission_type := "APPLICATION";
              filing_status := "DISSEMINATED"; document_urls := [];
              detail_url := "u104" |});
    [vm_compute; reflexivity | left | left].
Defined.

Lemma entity_name_is_longest_witness :
  exists (grouped : groups) (cluster : list raw_filing)
         (processed sorted : list filing_record),
    group_filings sample_batch [] = Ok grouped
    /\ (normalized_name sample_company, cluster) ∈ deduplicate grouped
    /\ (forall other,
          (normalized_name sample_company, other) ∈ deduplicate grouped ->
          other = cluster)
    /\ process_filings cluster = Ok processed
    /\ py_sort fr_date_received true processed = Ok sorted
    /\ validate_filings sorted = Some (filings sample_company)
    /\ filing_count sample_company = Z.of_nat (length cluster)
    /\ (exists f, f ∈ cluster
          /\ get_or f "company_name" (PStr "")
             = PStr (entity_name sample_company))
    /\ Forall (fun f => forall s,
                 get_or f "company_name" (PStr "") = PStr s ->
                 (String.length s
                  <= String.length (entity_name sample_company))%nat)
         cluster.
Proof.
  apply (entity_name_is_longest sample_text sample_world sample_batch
           [sample_company] sample_world_after sample_company);
    [vm_compute; reflexivity | left].
Defined.

Lemma normalized_key_shape_witness :
  str_Forall key_char (normalize_company_name "Acme  Communications, L.L.C.")
  /\ Text.contains "  " (normalize_company_name "Acme  Communications, L.L.C.")
     = false
  /\ Text.strip (normalize_company_name "Acme  Communications, L.L.C.")
     = normalize_company_name "Acme  Communications, L.L.C.".
Proof.
  apply (normalized_key_shape "Acme  Communications, L.L.C.").
  vm_compute. reflexivity.
Defined.

Lemma should_exclude_characterised_witness :
  should_exclude "FCC Enforcement Bureau"
  = existsb (fun fragment =>
               Text.contains fragment (Text.lower "FCC Enforcement Bureau"))
      excluded_fragments
    || Text.starts_with "fcc" (Text.lower "FCC Enforcement Bureau")
       && negb (word_after (Text.drop 3 (Text.lower "FCC Enforcement Bureau"))).
Proof.
  apply (should_exclude_characterised "FCC Enforcement Bureau").
  vm_compute. reflexivity.
Defined.

Lemma complete_cluster_emitted_witness :
  exists c,
    assemble "acme communications" complete_cluster = Ok (Emitted c)
    /\ normalized_name c = "acme communications"
    /\ is_applicant c = true
    /\ entity_type c = "Company"
    /\ filing_count c = Z.of_nat (length complete_cluster)
    /\ length (filings c) = length complete_cluster.
Proof.
  apply (complete_cluster_emitted "acme communications" complete_cluster).
  - repeat (match goal with |- Forall _ _ => constructor end);
      vm_compute; repeat split; eexists; reflexivity.
  - exists (fetched scenario_1 "101" "INBOX-52.15" "DISSEMINATED" "u101").
    split; [left | vm_compute; reflexivity].
  - repeat (match goal with |- Forall _ _ => constructor end);
      intros s H; vm_compute in H; injection H as <-; vm_compute; reflexivity.
Defined.
